(** * task-a.py: EC2 running-instance report uploaded to an S3 bucket

    A shallow embedding of [src/task-a/task-a.py].  The script is glue over
    the AWS SDK, so the embedding has three layers:

    - [Py]: the few Python built-ins the script relies on ([int] on a
      string, [str.replace], f-strings as concatenation, [csv.writer] with
      [QUOTE_ALL]);
    - [Aws]: the SDK calls and the calls to the operating system as an
      interface over an abstract provider state, every call returning
      either a value or a raised exception;
    - [Task]: the functions of the script, written in an exception-and-state
      monad that threads the provider state, the records handed to the
      module-level [logger], the trace of SDK and [os] calls, and the local
      files. *)

From Stdlib Require Import ZArith Ascii String List Lia.
From stdpp Require Import base option list gmap strings.

Local Open Scope Z_scope.

(** ** Python built-ins *)
Module Py.

(** [ClientError] as the script observes it: the value of
    [ce.response['Error']['Code']] and the text of [str(ce)]. *)
Record client_error := mkClientError {
  Code : string;
  ce_str : string
}.

(** The exceptions that can travel through the script.  [OtherError]
    stands for any exception class that is not one of the four named ones
    (a [BotoCoreError], an [OSError], ...): the script never catches it. *)
Inductive exn :=
| ClientError (ce : client_error)
| ValueError (msg : string)
| TypeError (msg : string)
| KeyError (key : string)
| OtherError (cls : string).

Inductive result (A : Type) :=
| Ok (a : A)
| Raise (e : exn).
Arguments Ok {A} a.
Arguments Raise {A} e.

Definition is_ClientError (e : exn) : bool :=
  match e with ClientError _ => true | _ => false end.

Definition dquote : ascii := "034"%char.
Definition CR : ascii := "013"%char.
Definition LF : ascii := "010"%char.

(** *** [int(s)] in base ten

    Surrounding white space (tab, line feed, vertical tab, form feed,
    carriage return, space) is dropped, one sign is accepted, and the
    digits may be grouped by single underscores.  Anything else is a
    [ValueError], here [None].  The model covers ASCII text and puts no
    limit on the number of digits. *)
Definition is_space (c : ascii) : bool :=
  let n := nat_of_ascii c in
  (((9 <=? n) && (n <=? 13)) || (n =? 32))%nat.

Definition is_digit (c : ascii) : bool :=
  let n := nat_of_ascii c in ((48 <=? n) && (n <=? 57))%nat.

Definition digit_val (c : ascii) : Z := Z.of_nat (nat_of_ascii c) - 48.

Fixpoint lstrip (s : list ascii) : list ascii :=
  match s with
  | c :: s' => if is_space c then lstrip s' else s
  | [] => []
  end.

Definition strip (s : list ascii) : list ascii :=
  rev (lstrip (rev (lstrip s))).

(** [after_digit] tells whether the previous character was a digit: an
    underscore is legal only there, and the text may end only there. *)
Fixpoint parse_digits (acc : Z) (after_digit : bool) (s : list ascii)
  : option Z :=
  match s with
  | [] => if after_digit then Some acc else None
  | c :: s' =>
      if is_digit c then parse_digits (10 * acc + digit_val c) true s'
      else if Ascii.eqb c "_" then
        if after_digit then parse_digits acc false s' else None
      else None
  end.

Definition int (s : string) : option Z :=
  match strip (list_ascii_of_string s) with
  | "+"%char :: ds => parse_digits 0 false ds
  | "-"%char :: ds => Z.opp <$> parse_digits 0 false ds
  | ds => parse_digits 0 false ds
  end.

(** *** [s.replace(old, new)] for one-character [old] and [new] *)
Fixpoint replace (old new : ascii) (s : string) : string :=
  match s with
  | EmptyString => EmptyString
  | String c s' =>
      String (if Ascii.eqb c old then new else c) (replace old new s')
  end.

(** *** [csv.writer(f, delimiter, quotechar, quoting=QUOTE_ALL)]

    A field is [None] or a string; [None] is written as the empty
    string.  With [QUOTE_ALL] every field is put between two quote
    characters and each quote character inside it is doubled (the
    default [doublequote=True]).  A row is its fields joined by the
    delimiter and ended by the default line terminator, CR LF. *)
Fixpoint double_quotes (q : ascii) (s : string) : string :=
  match s with
  | EmptyString => EmptyString
  | String c s' =>
      if Ascii.eqb c q then String q (String q (double_quotes q s'))
      else String c (double_quotes q s')
  end.

Definition field_text (v : option string) : string :=
  match v with Some s => s | None => EmptyString end.

Definition quote_field (q : ascii) (v : option string) : string :=
  String q (double_quotes q (field_text v) +:+ String q EmptyString).

Fixpoint join (delim : ascii) (fields : list string) : string :=
  match fields with
  | [] => EmptyString
  | [f] => f
  | f :: rest => f +:+ String delim (join delim rest)
  end.

Definition lineterminator : string := String CR (String LF EmptyString).

Definition writerow (delim q : ascii) (row : list (option string))
  : string :=
  join delim (quote_field q <$> row) +:+ lineterminator.

End Py.
Import Py.

(** ** The SDK as the script sees it *)
Module Aws.

(** An element of [instance.tags]: a dict with the keys ['Key'] and
    ['Value']. *)
Record Tag := mkTag { Key : string; Value : string }.

(** The attributes of an [ec2.Instance] the script reads.  [tags] is
    [None] for an instance that carries no tag at all. *)
Record Instance := mkInstance {
  instance_id : string;
  image_id : string;
  tags : option (list Tag)
}.

(** The attributes of an [ec2.Image] the script reads; either may be
    [None]. *)
Record Image := mkImage {
  description : option string;
  name : option string
}.

Record Filter := mkFilter { filter_Name : string; Values : list string }.

(** What iterating the collection returned by [ec2.instances.filter]
    does: it yields finitely many instances, and then either stops or
    raises (the pages are requested while iterating). *)
Record listing := mkListing {
  yielded : list Instance;
  failure : option exn
}.

(** The calls the script makes, as they are recorded in the trace. *)
Inductive call :=
| Boto3Client (service : string) (region_name : option string)
| Boto3Resource (service : string) (region_name : option string)
| GetCallerIdentity
| HeadBucket (Bucket : string)
| CreateBucket (Bucket : string)
| InstancesFilter (Filters : list Filter)
| ImageLoad (id : string)
| UploadFile (Filename Bucket Key : string)
| DatetimeNow
| Open (file_name : string)
| OsPathExists (path : string)
| OsRemove (path : string).

(** A call with the exception it raised, if any. *)
Definition event : Type := call * option exn.

(** [boto3]'s [upload_file] never raises a [ClientError]: the transfer
    manager turns one raised by the service into
    [boto3.exceptions.S3UploadFailedError], which is not a
    [ClientError]. *)
Definition S3UploadFailedError : exn := OtherError "S3UploadFailedError".

Definition s3_transfer (r : result unit) : result unit :=
  match r with
  | Raise (ClientError _) => Raise S3UploadFailedError
  | _ => r
  end.

(** The collaborators, over a provider state [W] that each call may
    change.  [now_timestamp] is the text of
    [str(datetime.datetime.timestamp(datetime.datetime.now()))];
    [upload_file] is the transfer to the service, given the local files
    it reads from.

    The last four are the operating system.  Each is given the local
    files as the script left them and answers for the real file system:
    [os_open], [os_write] and [os_remove] name the class of the exception
    that [open(file_name, 'w')], a row write and [os.remove] raise, if
    any (an [OSError], a [UnicodeEncodeError]), and [os_path_exists] is
    the answer of [os.path.exists], which is [False] when the file has
    been removed by someone else. *)
Record Provider (W : Type) := mkProvider {
  boto3_client : string → option string → W → result unit * W;
  boto3_resource : string → option string → W → result unit * W;
  get_caller_identity : W → result (gmap string string) * W;
  head_bucket : string → W → result unit * W;
  create_bucket : string → W → result unit * W;
  instances_filter : list Filter → W → listing * W;
  image_load : string → W → result Image * W;
  upload_file :
    gmap string string → string → string → string → W → result unit * W;
  now_timestamp : W → string * W;
  os_open : gmap string string → string → W → option string;
  os_write : gmap string string → string → string → W → option string;
  os_path_exists : gmap string string → string → W → bool;
  os_remove : gmap string string → string → W → option string
}.
Arguments boto3_client {W} _ _ _ _.
Arguments boto3_resource {W} _ _ _ _.
Arguments get_caller_identity {W} _ _.
Arguments head_bucket {W} _ _ _.
Arguments create_bucket {W} _ _ _.
Arguments instances_filter {W} _ _ _.
Arguments image_load {W} _ _ _.
Arguments upload_file {W} _ _ _ _ _ _.
Arguments now_timestamp {W} _ _.
Arguments os_open {W} _ _ _ _.
Arguments os_write {W} _ _ _ _ _.
Arguments os_path_exists {W} _ _ _ _.
Arguments os_remove {W} _ _ _ _.

End Aws.
Import Aws.

(** ** The monad of the script *)
Module Run.

Inductive level := INFO | WARNING | ERROR.

(** [log] holds the calls made on the module-level [logger], oldest
    first; [files] maps a local path to the text written to it. *)
Record state (W : Type) := mkState {
  world : W;
  log : list (level * string);
  trace : list event;
  files : gmap string string
}.
Arguments mkState {W} _ _ _ _.
Arguments world {W} _.
Arguments log {W} _.
Arguments trace {W} _.
Arguments files {W} _.

Definition M (W A : Type) : Type := state W → result A * state W.

Definition ret {W A} (a : A) : M W A := λ st, (Ok a, st).

Definition bind {W A B} (m : M W A) (k : A → M W B) : M W B :=
  λ st,
    match m st with
    | (Ok a, st') => k a st'
    | (Raise e, st') => (Raise e, st')
    end.

Definition raise {W A} (e : exn) : M W A := λ st, (Raise e, st).

(** [try: body / except ClientError as ce: handler ce]. *)
Definition try_except {W A} (body : M W A) (handler : client_error → M W A)
  : M W A :=
  λ st,
    match body st with
    | (Raise (ClientError ce), st') => handler ce st'
    | r => r
    end.

Definition emit {W} (lv : level) (msg : string) : M W unit :=
  λ st, (Ok tt, mkState (world st) (log st ++ [(lv, msg)]) (trace st)
                        (files st)).

Definition record {W} (c : call) (e : option exn) (w : W) (st : state W)
  : state W :=
  mkState w (log st) (trace st ++ [(c, e)]) (files st).

Definition raised {A} (r : result A) : option exn :=
  match r with Ok _ => None | Raise e => Some e end.

(** A call to a collaborator: run it on the provider state and record
    it with its outcome. *)
Definition invoke {W A} (c : call) (op : W → result A * W) : M W A :=
  λ st, let '(r, w) := op (world st) in (r, record c (raised r) w st).

(** A call to the operating system on the local files.  [op] names the
    class of the exception the call raises, if any; when it raises
    nothing the files become [f] of what they were. *)
Definition on_files {W} (c : call)
    (op : gmap string string → W → option string)
    (f : gmap string string → gmap string string) : M W unit :=
  λ st,
    match op (files st) (world st) with
    | None =>
        (Ok tt, mkState (world st) (log st) (trace st ++ [(c, None)])
                  (f (files st)))
    | Some cls =>
        (Raise (OtherError cls),
         mkState (world st) (log st)
           (trace st ++ [(c, Some (OtherError cls))]) (files st))
    end.

Definition get_files {W} : M W (gmap string string) :=
  λ st, (Ok (files st), st).

(** A question to the operating system that raises nothing. *)
Definition ask {W A} (c : call) (q : gmap string string → W → A) : M W A :=
  λ st, (Ok (q (files st) (world st)),
         mkState (world st) (log st) (trace st ++ [(c, None)]) (files st)).

(** [for x in xs: body x]. *)
Fixpoint for_each {W A} (xs : list A) (body : A → M W unit) : M W unit :=
  match xs with
  | [] => ret tt
  | x :: xs' => bind (body x) (λ _, for_each xs' body)
  end.

End Run.
Import Run.

#[global] Instance M_ret {W} : MRet (M W) := λ A, @Run.ret W A.
#[global] Instance M_bind {W} : MBind (M W) := λ A B k m, @Run.bind W A B m k.

(** An f-string: its literal pieces and formatted values, concatenated. *)
Definition fstring (pieces : list string) : string :=
  foldr String.append EmptyString pieces.

(** ** The script *)

(** [class RunInfo(Enum)]: the column ids of the report. *)
Inductive RunInfo := Name | Ami.

Definition RunInfo_value (c : RunInfo) : nat :=
  match c with Name => 1 | Ami => 2 end.

Definition RunInfo_of_value (n : nat) : RunInfo :=
  match n with 1%nat => Name | _ => Ami end.

#[global] Instance RunInfo_eq_dec : EqDecision RunInfo.
Proof. solve_decision. Defined.

#[global] Instance RunInfo_countable : Countable RunInfo :=
  inj_countable' RunInfo_value RunInfo_of_value
    (λ c, match c with Name => eq_refl | Ami => eq_refl end).

Definition RunInfo_repr (c : RunInfo) : string :=
  match c with Name => "RunInfo.Name" | Ami => "RunInfo.Ami" end.

(** The dict built for one instance: column id to [None] or a string. *)
Abbreviation instance_info := (gmap RunInfo (option string)).

Definition get_bucket_name (account_id region : string) : string :=
  fstring ["ec2-"; account_id; "-"; region; "-list"].

Section Task.
Context {W : Type} (aws : Provider W).

Definition logger_info (msg : string) : M W unit := emit INFO msg.
Definition logger_warning (msg : string) : M W unit := emit WARNING msg.
Definition logger_error (msg : string) : M W unit := emit ERROR msg.

(** [int(ce.response['Error']['Code'])]. *)
Definition int_code (ce : client_error) : M W Z :=
  match Py.int (Code ce) with
  | Some n => mret n
  | None => raise (ValueError (Code ce))
  end.

(** The pair is the two locals [exists] and [allow_access]. *)
Definition is_bucket_exists (bucket_name : string) : M W bool :=
  '(exists_, allow_access) ←
    try_except
      (invoke (HeadBucket bucket_name) (head_bucket aws bucket_name) ;;
       mret (true, true))
      (λ ce,
         error_code ← int_code ce;
         if Z.eqb error_code 403 then
           logger_warning
             (fstring ["Bucket "; bucket_name;
                       " is private. Forbidden access."]) ;;
           mret (true, false)
         else if Z.eqb error_code 404 then
           logger_info
             (fstring ["Bucket "; bucket_name;
                       " does not exist. Will be created."]) ;;
           mret (false, false)
         else mret (false, false));
  mret (exists_ && allow_access).

Definition create_not_exists_bucket (bucket_name : string) : M W unit :=
  try_except
    (found ← is_bucket_exists bucket_name;
     if negb found then
       invoke (CreateBucket bucket_name) (create_bucket aws bucket_name)
     else mret tt)
    (λ ce, logger_warning (ce_str ce)).

(** The loop of [get_ec2_name] over a tag list; falling off its end
    returns [None]. *)
Fixpoint first_Name (ts : list Tag) : option string :=
  match ts with
  | [] => None
  | tag :: ts' =>
      if String.eqb (Key tag) "Name" then Some (Value tag)
      else first_Name ts'
  end.

Definition get_ec2_name (instance : Instance) : M W (option string) :=
  match tags instance with
  | None => raise (TypeError "'NoneType' object is not iterable")
  | Some ts => mret (first_Name ts)
  end.

Definition generate_file_name : M W string :=
  timestamp ← invoke DatetimeNow
                (λ w, let '(t, w') := now_timestamp aws w in (Ok t, w'));
  let timestamp_f_name := Py.replace "." "-" timestamp in
  mret (fstring ["ec2-instances-"; timestamp_f_name; ".csv"]).

Definition filters : list Filter :=
  [mkFilter "instance-state-name" ["running"]].

(** The body of the loop of [get_ec2_list] up to the [append]. *)
Definition instance_record (instance : Instance) : M W instance_info :=
  found ← get_ec2_name instance;
  let instance_name :=
    match found with
    | None => instance_id instance
    | Some n => n
    end in
  image ← invoke (ImageLoad (image_id instance))
            (image_load aws (image_id instance));
  let instance_ami :=
    match description image with
    | None => name image
    | Some d => Some d
    end in
  mret (<[Ami := instance_ami]> (<[Name := Some instance_name]> ∅)).

(** The [for] loop of [get_ec2_list].  [running_istances] is a local of
    the function that the [except] block leaves as it is, so the loop
    hands back the list together with the exception that ended it. *)
Fixpoint for_instances (instances : list Instance) (failure : option exn)
    (running_istances : list instance_info) (st : state W)
  : (list instance_info * option exn) * state W :=
  match instances with
  | [] => ((running_istances, failure), st)
  | instance :: rest =>
      match instance_record instance st with
      | (Ok instance_info, st') =>
          for_instances rest failure (running_istances ++ [instance_info])
            st'
      | (Raise e, st') => ((running_istances, Some e), st')
      end
  end.

(** Iterating the collection requests its pages as it goes.  The trace
    records the listing once, where the collection is created, together
    with the exception that ends the iteration, if any; the image lookups
    of the instances yielded before that follow it. *)
Definition get_ec2_list : M W (list instance_info) :=
  λ st,
    let '(l, w) := instances_filter aws filters (world st) in
    let st0 := record (InstancesFilter filters) (failure l) w st in
    match for_instances (yielded l) (failure l) [] st0 with
    | ((running_istances, None), st1) => (Ok running_istances, st1)
    | ((running_istances, Some (ClientError ce)), st1) =>
        (logger_warning (ce_str ce) ;; mret running_istances) st1
    | ((_, Some e), st1) => (Raise e, st1)
    end.

(** [d[key]]. *)
Definition getitem (d : instance_info) (key : RunInfo)
  : M W (option string) :=
  match d !! key with
  | Some v => mret v
  | None => raise (KeyError (RunInfo_repr key))
  end.

(** [f.write(text)] on the file opened under [file_name]: the text is
    appended, unless the write raises. *)
Definition file_write (file_name text : string) : M W unit :=
  λ st,
    match os_write aws (files st) file_name text (world st) with
    | None =>
        (Ok tt, mkState (world st) (log st) (trace st)
                  (alter (λ old, old +:+ text) file_name (files st)))
    | Some cls => (Raise (OtherError cls), st)
    end.

(** [writer.writerow([r_instance[RunInfo.Name], r_instance[RunInfo.Ami]])]
    with the writer of the script: delimiter [;], quote character the
    double quote, [QUOTE_ALL]. *)
Definition write_record (file_name : string) (r_instance : instance_info)
  : M W unit :=
  c_name ← getitem r_instance Name;
  c_ami ← getitem r_instance Ami;
  file_write file_name (writerow ";" dquote [c_name; c_ami]).

Definition write_local_file (file_name : string)
    (running_istances : list instance_info) : M W unit :=
  on_files (Open file_name) (λ fs, os_open aws fs file_name)
    (<[file_name := EmptyString]>) ;;
  for_each running_istances (write_record file_name).

(** [d.get(key)] and [d[key]] on the identity response. *)
Definition dict_getitem (d : gmap string string) (key : string)
  : M W string :=
  match d !! key with
  | Some v => mret v
  | None => raise (KeyError key)
  end.

Definition create_running_ec2_list (region : string) : M W unit :=
  try_except
    (invoke (Boto3Client "sts" None) (boto3_client aws "sts" None) ;;
     identity ← invoke GetCallerIdentity (get_caller_identity aws);
     let account_id := identity !! "Account" in
     invoke (Boto3Resource "s3" None) (boto3_resource aws "s3" None) ;;
     invoke (Boto3Resource "ec2" (Some region))
       (boto3_resource aws "ec2" (Some region)) ;;
     invoke (Boto3Client "ecr" (Some region))
       (boto3_client aws "ecr" (Some region)) ;;
     invoke (Boto3Client "sts" None) (boto3_client aws "sts" None) ;;
     identity ← invoke GetCallerIdentity (get_caller_identity aws);
     account_id ← dict_getitem identity "Account";
     let s3_bucket_name := get_bucket_name account_id region in
     create_not_exists_bucket s3_bucket_name ;;
     csv_f_name ← generate_file_name;
     running_istances ← get_ec2_list;
     write_local_file csv_f_name running_istances ;;
     invoke (Boto3Client "s3" None) (boto3_client aws "s3" None) ;;
     fs ← get_files;
     invoke (UploadFile csv_f_name s3_bucket_name csv_f_name)
       (λ w, let '(r, w') :=
               upload_file aws fs csv_f_name s3_bucket_name csv_f_name w in
             (s3_transfer r, w')) ;;
     present ← ask (OsPathExists csv_f_name)
                 (λ fs, os_path_exists aws fs csv_f_name);
     if present : bool then
       on_files (OsRemove csv_f_name) (λ fs, os_remove aws fs csv_f_name)
         (delete csv_f_name)
     else mret tt)
    (λ ce, logger_error (ce_str ce)).

End Task.

(** ** A scripted provider, for running the script on concrete inputs *)
Module Script.

(** What each collaborator answers, whatever the provider state. *)
Record scenario := mkScenario {
  identity : result (gmap string string);
  head : string → result unit;
  create : string → result unit;
  instances : listing;
  images : string → result Image;
  upload : result unit;
  now : string;
  open_error : option string;
  write_error : string → option string;
  still_there : bool;
  remove_error : option string
}.

Definition provider (s : scenario) : Provider unit := {|
  boto3_client := λ _ _ w, (Ok tt, w);
  boto3_resource := λ _ _ w, (Ok tt, w);
  get_caller_identity := λ w, (identity s, w);
  head_bucket := λ b w, (head s b, w);
  create_bucket := λ b w, (create s b, w);
  instances_filter := λ _ w, (instances s, w);
  image_load := λ i w, (images s i, w);
  upload_file := λ _ _ _ _ w, (upload s, w);
  now_timestamp := λ w, (now s, w);
  os_open := λ _ _ _, open_error s;
  os_write := λ _ _ text _, write_error s text;
  os_path_exists := λ _ _ _, still_there s;
  os_remove := λ _ _ _, remove_error s
|}.

Definition start : state unit := mkState tt [] [] ∅.

Definition http (status reason : string) : exn :=
  ClientError (mkClientError status reason).

(** The end-to-end scenario of the specification. *)
Definition web_1 : Instance :=
  mkInstance "i-0aaa111" "ami-1"
    (Some [mkTag "env" "prod"; mkTag "Name" "web-1"]).
Definition untagged : Instance := mkInstance "i-0abc123" "ami-2" (Some []).
Definition tagless : Instance := mkInstance "i-0ddd444" "ami-1" None.

Definition catalogue (id : string) : result Image :=
  if String.eqb id "ami-1" then
    Ok (mkImage (Some "Ubuntu 22.04") (Some "ubuntu"))
  else if String.eqb id "ami-2" then
    Ok (mkImage None (Some "custom-ami"))
  else if String.eqb id "ami-3" then
    Ok (mkImage (Some EmptyString) (Some "custom-ami"))
  else Raise (http "InvalidAMIID.NotFound" "The image id does not exist").

Definition end_to_end : scenario := {|
  identity := Ok {[ "Account" := "111122223333" ]};
  head := λ _, Raise (http "404" "Not Found");
  create := λ _, Ok tt;
  instances := mkListing [web_1; untagged] None;
  images := catalogue;
  upload := Ok tt;
  now := "1700000000.123456";
  open_error := None;
  write_error := λ _, None;
  still_there := true;
  remove_error := None
|}.

End Script.

(** ** Notions used in the statements *)

Section Statements.
Context {W : Type} (aws : Provider W).

(** The buckets of the creation calls of a trace, oldest first. *)
Definition creations (tr : list event) : list string :=
  omap (λ ev, match fst ev with CreateBucket b => Some b | _ => None end) tr.

(** The creation calls [create_not_exists_bucket] adds, by probe outcome. *)
Definition creations_for (bucket : string) (probe : result unit)
  : list string :=
  match probe with
  | Ok _ => []
  | Raise (ClientError ce) =>
      match Py.int (Code ce) with Some _ => [bucket] | None => [] end
  | Raise _ => []
  end.

(** The state right after the probe raised [e]. *)
Definition probed (bucket : string) (e : option exn) (w : W) (st : state W)
  : state W :=
  record (HeadBucket bucket) e w st.

Definition not_iterable : exn :=
  TypeError "'NoneType' object is not iterable".

(** The state in which the loop of [get_ec2_list] starts. *)
Definition listed (l : listing) (w : W) (st : state W) : state W :=
  record (InstancesFilter filters) (failure l) w st.

Definition warned (msg : string) (st : state W) : state W :=
  mkState (world st) (log st ++ [(WARNING, msg)]) (trace st) (files st).

(** [processed pre st recs st']: from the state [st], the loop body turns
    the instances of [pre], in order and without an exception, into the
    records [recs], and leaves the state [st']. *)
Inductive processed
  : list Instance → state W → list instance_info → state W → Prop :=
| processed_nil st : processed [] st [] st
| processed_cons instance rest st r st1 recs st2 :
    instance_record aws instance st = (Ok r, st1) →
    processed rest st1 recs st2 →
    processed (instance :: rest) st (r :: recs) st2.

(** A field as [QUOTE_ALL] writes it, and a two-field row of the
    report. *)
Definition quoted (v : option string) : string :=
  String dquote
    (double_quotes dquote (field_text v) +:+ String dquote EmptyString).

Definition report_row (c_name c_ami : option string) : string :=
  quoted c_name +:+ String ";" (quoted c_ami +:+ lineterminator).

Definition row_of (r : instance_info) : string :=
  report_row (default None (r !! Name)) (default None (r !! Ami)).

Definition with_files (fs : gmap string string) (st : state W) : state W :=
  mkState (world st) (log st) (trace st) fs.

(** Everything up to the creation of the S3 client used for the upload;
    the result is the report file name and the bucket name. *)
Definition prepare (region : string) : M W (string * string) :=
  invoke (Boto3Client "sts" None) (boto3_client aws "sts" None) ;;
  identity ← invoke GetCallerIdentity (get_caller_identity aws);
  invoke (Boto3Resource "s3" None) (boto3_resource aws "s3" None) ;;
  invoke (Boto3Resource "ec2" (Some region))
    (boto3_resource aws "ec2" (Some region)) ;;
  invoke (Boto3Client "ecr" (Some region))
    (boto3_client aws "ecr" (Some region)) ;;
  invoke (Boto3Client "sts" None) (boto3_client aws "sts" None) ;;
  identity ← invoke GetCallerIdentity (get_caller_identity aws);
  account_id ← dict_getitem identity "Account";
  create_not_exists_bucket aws (get_bucket_name account_id region) ;;
  csv_f_name ← generate_file_name aws;
  running_istances ← get_ec2_list aws;
  write_local_file aws csv_f_name running_istances ;;
  invoke (Boto3Client "s3" None) (boto3_client aws "s3" None) ;;
  mret (csv_f_name, get_bucket_name account_id region).

(** The upload and the removal of the local file. *)
Definition finish (names : string * string) : M W unit :=
  let '(csv_f_name, s3_bucket_name) := names in
  fs ← get_files;
  invoke (UploadFile csv_f_name s3_bucket_name csv_f_name)
    (λ w, let '(r, w') :=
            upload_file aws fs csv_f_name s3_bucket_name csv_f_name w in
          (s3_transfer r, w')) ;;
  present ← ask (OsPathExists csv_f_name)
              (λ fs, os_path_exists aws fs csv_f_name);
  if present : bool then
    on_files (OsRemove csv_f_name) (λ fs, os_remove aws fs csv_f_name)
      (delete csv_f_name)
  else mret tt.

Definition quiet_call (c : call) : Prop :=
  match c with
  | UploadFile _ _ _ | OsPathExists _ | OsRemove _ => False
  | _ => True
  end.

Definition quiet (ev : event) : Prop := quiet_call ev.1.

(** [st] continues [st0] by quiet calls only. *)
Definition quiet_from (st0 st : state W) : Prop :=
  ∃ evs, trace st = trace st0 ++ evs ∧ Forall quiet evs.

Definition quiet_run {A} (m : M W A) : Prop :=
  ∀ st, quiet_from st (m st).2.

(** [m] returns only values and states that satisfy [Q]. *)
Definition ensures {A} (m : M W A) (Q : A → state W → Prop) : Prop :=
  ∀ st a st', m st = (Ok a, st') → Q a st'.

(** [within calls levels paths st0 st]: the state [st] continues [st0] by
    calls that satisfy [calls] and by log records whose level satisfies
    [levels], and it agrees with [st0] on every local path outside
    [paths]. *)
Definition within (calls : call → Prop) (levels : level → Prop)
    (paths : string → Prop) (st0 st : state W) : Prop :=
  ∃ evs lg,
    trace st = trace st0 ++ evs ∧ Forall (λ ev, calls ev.1) evs
    ∧ log st = log st0 ++ lg ∧ Forall (λ rec, levels rec.1) lg
    ∧ ∀ p, ¬ paths p → files st !! p = files st0 !! p.

(** Every run of [m] stays within the footprint. *)
Definition stays {A} (calls : call → Prop) (levels : level → Prop)
    (paths : string → Prop) (m : M W A) : Prop :=
  ∀ st, within calls levels paths st (m st).2.

(** The calls one run of the command may make, given the bucket name and
    the report file name of the run. *)
Definition command_call (region bucket file_name : string) (c : call)
  : Prop :=
  match c with
  | Boto3Client service r =>
      (service = "sts" ∧ r = None) ∨ (service = "ecr" ∧ r = Some region)
      ∨ (service = "s3" ∧ r = None)
  | Boto3Resource service r =>
      (service = "s3" ∧ r = None) ∨ (service = "ec2" ∧ r = Some region)
  | GetCallerIdentity | DatetimeNow | ImageLoad _ => True
  | HeadBucket b | CreateBucket b => b = bucket
  | InstancesFilter fl => fl = filters
  | UploadFile f b k => f = file_name ∧ b = bucket ∧ k = file_name
  | Open p | OsPathExists p | OsRemove p => p = file_name
  end.

Definition not_ERROR (lv : level) : Prop := lv ≠ ERROR.

(** The steps of the command up to the account identifier. *)
Definition resolve_account (region : string) : M W string :=
  invoke (Boto3Client "sts" None) (boto3_client aws "sts" None) ;;
  identity ← invoke GetCallerIdentity (get_caller_identity aws);
  invoke (Boto3Resource "s3" None) (boto3_resource aws "s3" None) ;;
  invoke (Boto3Resource "ec2" (Some region))
    (boto3_resource aws "ec2" (Some region)) ;;
  invoke (Boto3Client "ecr" (Some region))
    (boto3_client aws "ecr" (Some region)) ;;
  invoke (Boto3Client "sts" None) (boto3_client aws "sts" None) ;;
  identity ← invoke GetCallerIdentity (get_caller_identity aws);
  dict_getitem identity "Account".

(** The steps of the command once the two names are known. *)
Definition report (csv_f_name s3_bucket_name : string) : M W unit :=
  running_istances ← get_ec2_list aws;
  write_local_file aws csv_f_name running_istances ;;
  invoke (Boto3Client "s3" None) (boto3_client aws "s3" None) ;;
  finish (csv_f_name, s3_bucket_name).

(** The [try] block of the command. *)
Definition command_body (region : string) : M W unit :=
  account_id ← resolve_account region;
  create_not_exists_bucket aws (get_bucket_name account_id region) ;;
  csv_f_name ← generate_file_name aws;
  report csv_f_name (get_bucket_name account_id region).

(** The calls whose [ClientError] no function of the script handles
    before the handler of the command. *)
Definition top_level_call (c : call) : Prop :=
  match c with
  | Boto3Client _ _ | Boto3Resource _ _ | GetCallerIdentity => True
  | _ => False
  end.

(** [m] only adds to the trace, and a [ClientError] recorded for a call
    that satisfies [P] ends [m]: [m] raises that very error. *)
Definition fails_on {A} (P : call → Prop) (m : M W A) : Prop :=
  ∀ st, ∃ evs,
    trace (m st).2 = trace st ++ evs
    ∧ ∀ c ce, (c, Some (ClientError ce)) ∈ evs → P c →
        (m st).1 = Raise (ClientError ce).

(** The file [file_name] can be opened for writing and written to. *)
Definition writable (file_name : string) (st : state W) : Prop :=
  os_open aws (files st) file_name (world st) = None
  ∧ ∀ fs text, os_write aws fs file_name text (world st) = None.

(** [m] never raises a [ClientError]. *)
Definition never_ClientError {A} (m : M W A) : Prop :=
  ∀ st ce st', m st ≠ (Raise (ClientError ce), st').

(** A [ClientError] leaves [m] only as the outcome of the call [m] made
    last, and that call satisfies [P]. *)
Definition raises_by {A} (P : call → Prop) (m : M W A) : Prop :=
  ∀ st ce st',
    m st = (Raise (ClientError ce), st') →
    ∃ evs c,
      trace st' = trace st ++ evs ++ [(c, Some (ClientError ce))] ∧ P c.

(** [m] only adds to the trace. *)
Definition extends {A} (m : M W A) : Prop :=
  ∀ st, ∃ evs, trace (m st).2 = trace st ++ evs.

(** From a state that satisfies [I], [m] returns only values and states
    that satisfy [Q]. *)
Definition ensures_from {A} (I : state W → Prop) (m : M W A)
    (Q : A → state W → Prop) : Prop :=
  ∀ st a st', I st → m st = (Ok a, st') → Q a st'.

(** How an exception [e] can arise between the states [st] and [st']:
    as the recorded outcome of a call made in between, as the [KeyError]
    of an identity response without ['Account'], as the [ValueError] of
    [int] on an error code that is not an integer, as the [TypeError] of
    iterating an absent tag collection, or as the exception of a row
    write. *)
Definition escape (e : exn) (st st' : state W) : Prop :=
  (∃ evs c, trace st' = trace st ++ evs ∧ (c, Some e) ∈ evs)
  ∨ e = KeyError "Account"
  ∨ (∃ code, e = ValueError code ∧ Py.int code = None)
  ∨ e = not_iterable
  ∨ (∃ fs p text w cls,
       os_write aws fs p text w = Some cls ∧ e = OtherError cls).

(** Every exception [m] raises arises in one of these ways. *)
Definition raises_within {A} (m : M W A) : Prop :=
  ∀ st e st', m st = (Raise e, st') → escape e st st'.

End Statements.

(** ** Scenarios *)

(** The end-to-end scenario with another answer of the probe and of the
    creation call. *)
Definition probe_scenario (probe creation : result unit) : Script.scenario :=
  {| Script.identity := Script.identity Script.end_to_end;
     Script.head := λ _, probe;
     Script.create := λ _, creation;
     Script.instances := Script.instances Script.end_to_end;
     Script.images := Script.images Script.end_to_end;
     Script.upload := Script.upload Script.end_to_end;
     Script.now := Script.now Script.end_to_end;
     Script.open_error := None;
     Script.write_error := λ _, None;
     Script.still_there := true;
     Script.remove_error := None |}.

Definition forbidden : Script.scenario :=
  probe_scenario (Raise (Script.http "403" "Forbidden"))
    (Raise (Script.http "BucketAlreadyExists" "The name is taken")).

Definition server_error : Script.scenario :=
  probe_scenario (Raise (Script.http "500" "Internal Server Error")) (Ok tt).

Definition symbolic_code : Script.scenario :=
  probe_scenario (Raise (Script.http "AccessDenied" "Access Denied")) (Ok tt).

Definition web_1_record : instance_info :=
  <[Ami := Some "Ubuntu 22.04"]> (<[Name := Some "web-1"]> ∅).

Definition untagged_record : instance_info :=
  <[Ami := Some "custom-ami"]> (<[Name := Some "i-0abc123"]> ∅).

Definition blank_description : Script.scenario :=
  {| Script.identity := Script.identity Script.end_to_end;
     Script.head := Script.head Script.end_to_end;
     Script.create := Script.create Script.end_to_end;
     Script.instances :=
       mkListing [mkInstance "i-0eee555" "ami-3" (Some [])] None;
     Script.images := Script.catalogue;
     Script.upload := Script.upload Script.end_to_end;
     Script.now := Script.now Script.end_to_end;
     Script.open_error := None;
     Script.write_error := λ _, None;
     Script.still_there := true;
     Script.remove_error := None |}.

Definition listing_scenario (l : listing) (imgs : string → result Image)
  : Script.scenario :=
  {| Script.identity := Script.identity Script.end_to_end;
     Script.head := Script.head Script.end_to_end;
     Script.create := Script.create Script.end_to_end;
     Script.instances := l;
     Script.images := imgs;
     Script.upload := Script.upload Script.end_to_end;
     Script.now := Script.now Script.end_to_end;
     Script.open_error := None;
     Script.write_error := λ _, None;
     Script.still_there := true;
     Script.remove_error := None |}.

Definition unauthorized : exn :=
  Script.http "UnauthorizedOperation" "You are not authorized".

(** The caller may list instances but not describe images. *)
Definition images_denied : Script.scenario :=
  listing_scenario (mkListing [Script.web_1; Script.tagless] None)
    (λ _, Raise unauthorized).

Definition tagless_second : Script.scenario :=
  listing_scenario
    (mkListing [Script.web_1; Script.tagless; Script.untagged] None)
    Script.catalogue.

Definition after_web_1 (s : Script.scenario) : state unit :=
  (instance_record (Script.provider s) Script.web_1
     (listed (Script.instances s) tt Script.start)).2.

Definition missing_image : Instance :=
  mkInstance "i-0fff666" "ami-9" (Some [mkTag "Name" "batch"]).

Definition image_lookup_fails : Script.scenario :=
  listing_scenario
    (mkListing [Script.web_1; missing_image; Script.untagged] None)
    Script.catalogue.

Definition not_found : client_error :=
  mkClientError "InvalidAMIID.NotFound" "The image id does not exist".

Definition access_denied : client_error :=
  mkClientError "AccessDenied" "Access Denied".

(** The service refuses the upload. *)
Definition upload_fails : Script.scenario :=
  {| Script.identity := Script.identity Script.end_to_end;
     Script.head := Script.head Script.end_to_end;
     Script.create := Script.create Script.end_to_end;
     Script.instances := Script.instances Script.end_to_end;
     Script.images := Script.images Script.end_to_end;
     Script.upload := Raise (ClientError access_denied);
     Script.now := Script.now Script.end_to_end;
     Script.open_error := None;
     Script.write_error := λ _, None;
     Script.still_there := true;
     Script.remove_error := None |}.

Definition failed_run : result unit * state unit :=
  create_running_ec2_list (Script.provider upload_fails) "us-east-1"
    Script.start.

Definition report_name : string := "ec2-instances-1700000000-123456.csv".
Definition bucket_name : string := "ec2-111122223333-us-east-1-list".

Definition end_to_end_listed : state unit :=
  (get_ec2_list (Script.provider Script.end_to_end) Script.start).2.

Definition nameless_record : instance_info := {[ Ami := Some "custom-ami" ]}.

(** A record whose name holds two double quotes and whose description is
    absent: [db "main"]. *)
Definition quoted_record : instance_info :=
  <[Ami := None]>
    (<[Name := Some ("db " +:+ String dquote ("main"
                       +:+ String dquote EmptyString))]> ∅).


(** The credentials of the caller have expired. *)
Definition token_expired : Script.scenario :=
  {| Script.identity :=
       Raise (Script.http "ExpiredToken" "The security token is expired");
     Script.head := Script.head Script.end_to_end;
     Script.create := Script.create Script.end_to_end;
     Script.instances := Script.instances Script.end_to_end;
     Script.images := Script.images Script.end_to_end;
     Script.upload := Script.upload Script.end_to_end;
     Script.now := Script.now Script.end_to_end;
     Script.open_error := None;
     Script.write_error := λ _, None;
     Script.still_there := true;
     Script.remove_error := None |}.

(** No row can be written to the report file. *)
Definition disk_full : Script.scenario :=
  {| Script.identity := Script.identity Script.end_to_end;
     Script.head := Script.head Script.end_to_end;
     Script.create := Script.create Script.end_to_end;
     Script.instances := Script.instances Script.end_to_end;
     Script.images := Script.images Script.end_to_end;
     Script.upload := Script.upload Script.end_to_end;
     Script.now := Script.now Script.end_to_end;
     Script.open_error := None;
     Script.write_error := λ _, Some "OSError";
     Script.still_there := true;
     Script.remove_error := None |}.

Definition unreachable : exn := OtherError "EndpointConnectionError".

(** The image service cannot be reached. *)
Definition images_unreachable : Script.scenario :=
  listing_scenario
    (mkListing [Script.web_1; missing_image; Script.untagged] None)
    (λ id, if String.eqb id "ami-9" then Raise unreachable
           else Script.catalogue id).

(** * Properties *)

Example int_403 : Py.int "403" = Some 403.
Proof. reflexivity. Qed.

Example int_padded : Py.int " +4_04 " = Some 404.
Proof. reflexivity. Qed.

Example int_symbolic : Py.int "AccessDenied" = None.
Proof. reflexivity. Qed.

Example writerow_two :
  writerow ";" dquote [Some "web-1"; None]
  = String dquote ("web-1" +:+ String dquote (";" +:+ String dquote
      (String dquote lineterminator))).
Proof. reflexivity. Qed.

Lemma creations_app tr1 tr2 :
  creations (tr1 ++ tr2) = creations tr1 ++ creations tr2.
Proof. unfold creations. apply omap_app. Qed.

Ltac unfold_run :=
  unfold mbind, M_bind, mret, M_ret, Run.bind, Run.ret, Run.raise,
    try_except, invoke, emit, on_files, get_files, record in *.

(** ** Bucket naming *)

Lemma append_cons (x : ascii) (a b : string) :
  String x a +:+ b = String x (a +:+ b).
Proof. reflexivity. Qed.

Lemma append_assoc (a b c : string) : (a +:+ b) +:+ c = a +:+ (b +:+ c).
Proof.
  induction a as [|x a IH]; [done |]. rewrite !append_cons. by f_equal.
Qed.

Lemma append_empty_r (a : string) : a +:+ EmptyString = a.
Proof.
  induction a as [|x a IH]; [done |]. rewrite append_cons. by f_equal.
Qed.

Example bucket_name_end_to_end :
  get_bucket_name "111122223333" "us-east-1"
  = "ec2-111122223333-us-east-1-list".
Proof. reflexivity. Qed.

(** C10. [get_bucket_name(account_id, region)] is the concatenation
    ['ec2-' + account_id + '-' + region + '-list'] (here with Python's
    left-nested [+]), for every account identifier and region; being a
    function of its two arguments alone it gives equal names on equal
    arguments. *)
Theorem get_bucket_name_concatenation (account_id region : string) :
  get_bucket_name account_id region
  = ((("ec2-" +:+ account_id) +:+ "-") +:+ region) +:+ "-list"
  ∧ ∀ account_id' region',
      (account_id', region') = (account_id, region) →
      get_bucket_name account_id' region' = get_bucket_name account_id region.
Proof.
  split.
  - unfold get_bucket_name, fstring. cbn [foldr].
    rewrite append_empty_r, !append_assoc. reflexivity.
  - intros a' r' [= -> ->]. reflexivity.
Qed.

(** ** The bucket resolver *)
Section Resolver.
Context {W : Type} (aws : Provider W).

Lemma is_bucket_exists_accessible bucket st w :
  head_bucket aws bucket (world st) = (Ok tt, w) →
  is_bucket_exists aws bucket st = (Ok true, probed bucket None w st).
Proof. intros H. unfold is_bucket_exists. unfold_run. by rewrite H. Qed.

Lemma is_bucket_exists_403 bucket st ce w :
  head_bucket aws bucket (world st) = (Raise (ClientError ce), w) →
  Py.int (Code ce) = Some 403 →
  is_bucket_exists aws bucket st
  = (Ok false,
     let st1 := probed bucket (Some (ClientError ce)) w st in
     mkState w
       (log st ++ [(WARNING, fstring ["Bucket "; bucket;
                                     " is private. Forbidden access."])])
       (trace st1) (files st)).
Proof.
  intros H Hc. unfold is_bucket_exists, int_code, logger_warning.
  unfold_run. rewrite H. simpl. by rewrite Hc.
Qed.

Lemma is_bucket_exists_404 bucket st ce w :
  head_bucket aws bucket (world st) = (Raise (ClientError ce), w) →
  Py.int (Code ce) = Some 404 →
  is_bucket_exists aws bucket st
  = (Ok false,
     let st1 := probed bucket (Some (ClientError ce)) w st in
     mkState w
       (log st ++ [(INFO, fstring ["Bucket "; bucket;
                                  " does not exist. Will be created."])])
       (trace st1) (files st)).
Proof.
  intros H Hc. unfold is_bucket_exists, int_code, logger_info.
  unfold_run. rewrite H. simpl. by rewrite Hc.
Qed.

Lemma is_bucket_exists_other_code bucket st ce w n :
  head_bucket aws bucket (world st) = (Raise (ClientError ce), w) →
  Py.int (Code ce) = Some n → n ≠ 403 → n ≠ 404 →
  is_bucket_exists aws bucket st
  = (Ok false, probed bucket (Some (ClientError ce)) w st).
Proof.
  intros H Hc H3 H4. unfold is_bucket_exists, int_code.
  unfold_run. rewrite H. simpl. rewrite Hc.
  destruct (Z.eqb_spec n 403); [done |].
  destruct (Z.eqb_spec n 404); [done |]. reflexivity.
Qed.

Lemma is_bucket_exists_bad_code bucket st ce w :
  head_bucket aws bucket (world st) = (Raise (ClientError ce), w) →
  Py.int (Code ce) = None →
  is_bucket_exists aws bucket st
  = (Raise (ValueError (Code ce)),
     probed bucket (Some (ClientError ce)) w st).
Proof.
  intros H Hc. unfold is_bucket_exists, int_code.
  unfold_run. rewrite H. simpl. by rewrite Hc.
Qed.

(** What [create_not_exists_bucket] does once the probe has answered
    [False] and left the state [st1]. *)
Lemma create_after_probe bucket st st1 :
  is_bucket_exists aws bucket st = (Ok false, st1) →
  create_not_exists_bucket aws bucket st
  = match create_bucket aws bucket (world st1) with
    | (Ok tt, w) => (Ok tt, record (CreateBucket bucket) None w st1)
    | (Raise (ClientError ce), w) =>
        logger_warning (ce_str ce)
          (record (CreateBucket bucket) (Some (ClientError ce)) w st1)
    | (Raise e, w) => (Raise e, record (CreateBucket bucket) (Some e) w st1)
    end.
Proof.
  intros H. unfold create_not_exists_bucket. unfold_run. rewrite H.
  simpl. destruct (create_bucket aws bucket (world st1)) as [[[]|e] w];
    simpl; [done |]. by destruct e.
Qed.

Lemma create_after_probe_trace bucket st st1 :
  is_bucket_exists aws bucket st = (Ok false, st1) →
  ∃ r w,
    create_bucket aws bucket (world st1) = (r, w) ∧
    trace (create_not_exists_bucket aws bucket st).2
    = trace st1 ++ [(CreateBucket bucket, raised r)].
Proof.
  intros H. rewrite (create_after_probe _ _ _ H).
  destruct (create_bucket aws bucket (world st1)) as [[[]|e] w];
    eexists _, _; (split; [reflexivity |]); [done |].
  by destruct e.
Qed.

End Resolver.

(** C1. When the probe raised a 403, [create_not_exists_bucket] does call
    [create_bucket]: [is_bucket_exists] answers [exists and allow_access],
    which is [False] for a bucket that exists but is not accessible, and
    the caller creates whenever the answer is [False].  Exactly one
    creation call, for the probed name, is added to the trace. *)
Theorem forbidden_probe_still_creates {W} (aws : Provider W)
    (bucket : string) (st : state W) (ce : client_error) (w : W) :
  head_bucket aws bucket (world st) = (Raise (ClientError ce), w) →
  Py.int (Code ce) = Some 403 →
  creations (trace (create_not_exists_bucket aws bucket st).2)
  = creations (trace st) ++ [bucket].
Proof.
  intros H Hc.
  destruct (create_after_probe_trace aws bucket st _
              (is_bucket_exists_403 aws bucket st ce w H Hc))
    as (r & w' & _ & ->).
  cbn [trace probed record]. by rewrite !creations_app, app_nil_r.
Qed.

Lemma forbidden_probe_still_creates_witness :
  head_bucket (Script.provider forbidden) "reports" (world Script.start)
  = (Raise (Script.http "403" "Forbidden"), tt)
  ∧ Py.int "403" = Some 403
  ∧ creations
      (trace (create_not_exists_bucket (Script.provider forbidden)
                "reports" Script.start).2)
    = creations (trace Script.start) ++ ["reports"].
Proof.
  split; [reflexivity |]. split; [reflexivity |].
  apply (forbidden_probe_still_creates (Script.provider forbidden) "reports"
           Script.start (mkClientError "403" "Forbidden") tt);
    reflexivity.
Defined.

(** C3. The creation calls of [create_not_exists_bucket] by probe outcome:
    none when the probe succeeds; exactly one, for the probed name, when
    the probe raises a [ClientError] whose code reads as an integer, which
    is the case of 404 and also that of 403 and of every other status; none
    when the code does not read as an integer or another exception is
    raised, since the exception then leaves the function. *)
Theorem creation_calls_by_probe_outcome {W} (aws : Provider W)
    (bucket : string) (st : state W) (probe : result unit) (w : W) :
  head_bucket aws bucket (world st) = (probe, w) →
  creations (trace (create_not_exists_bucket aws bucket st).2)
  = creations (trace st) ++ creations_for bucket probe.
Proof.
  intros H. destruct probe as [[]|e].
  - unfold create_not_exists_bucket. unfold_run.
    rewrite (is_bucket_exists_accessible aws bucket st w H). cbn.
    by rewrite creations_app.
  - destruct e as [ce| | | |];
      try (unfold create_not_exists_bucket, is_bucket_exists; unfold_run;
           rewrite H; cbn; by rewrite creations_app).
    cbn [creations_for]. destruct (Py.int (Code ce)) as [n|] eqn:Hc.
    + assert (∃ st1, is_bucket_exists aws bucket st = (Ok false, st1)
                     ∧ creations (trace st1) = creations (trace st))
        as (st1 & Hp & Htr).
      { destruct (decide (n = 403)) as [->|H3];
          [| destruct (decide (n = 404)) as [->|H4]].
        - eexists; split; [by apply is_bucket_exists_403 |].
          cbn. by rewrite creations_app, app_nil_r.
        - eexists; split; [by apply is_bucket_exists_404 |].
          cbn. by rewrite creations_app, app_nil_r.
        - eexists; split; [by eapply is_bucket_exists_other_code |].
          cbn. by rewrite creations_app, app_nil_r. }
      destruct (create_after_probe_trace aws bucket st st1 Hp)
        as (r & w' & _ & ->).
      by rewrite creations_app, Htr.
    + unfold create_not_exists_bucket. unfold_run.
      rewrite (is_bucket_exists_bad_code aws bucket st ce w H Hc). cbn.
      by rewrite creations_app.
Qed.

Lemma creation_calls_by_probe_outcome_witness :
  head_bucket (Script.provider forbidden) "reports" (world Script.start)
  = (Raise (Script.http "403" "Forbidden"), tt)
  ∧ creations
      (trace (create_not_exists_bucket (Script.provider forbidden)
                "reports" Script.start).2)
    = ["reports"].
Proof.
  split; [reflexivity |].
  apply (creation_calls_by_probe_outcome (Script.provider forbidden)
           "reports" Script.start (Raise (Script.http "403" "Forbidden")) tt).
  reflexivity.
Defined.

Example not_found_probe_creates_once :
  creations
    (trace (create_not_exists_bucket (Script.provider Script.end_to_end)
              "reports" Script.start).2)
  = ["reports"].
Proof. reflexivity. Qed.

Example forbidden_probe_run :
  create_not_exists_bucket (Script.provider forbidden) "reports" Script.start
  = (Ok tt,
     mkState tt
       [(WARNING, "Bucket reports is private. Forbidden access.");
        (WARNING, "The name is taken")]
       [(HeadBucket "reports", Some (Script.http "403" "Forbidden"));
        (CreateBucket "reports",
         Some (Script.http "BucketAlreadyExists" "The name is taken"))]
       ∅).
Proof. reflexivity. Qed.

(** C2, as the claim has it, at a concrete input: the probe raises a
    [ClientError] with code 500, neither 403 nor 404, and
    [is_bucket_exists] returns [False] instead of raising. *)
Lemma server_error_probe_is_swallowed :
  head_bucket (Script.provider server_error) "reports" (world Script.start)
  = (Raise (Script.http "500" "Internal Server Error"), tt)
  ∧ Py.int "500" ≠ Some 403
  ∧ Py.int "500" ≠ Some 404
  ∧ (is_bucket_exists (Script.provider server_error) "reports"
       Script.start).1 = Ok false
  ∧ ¬ ∃ e, (is_bucket_exists (Script.provider server_error) "reports"
              Script.start).1 = Raise e.
Proof.
  repeat split; try done. by intros [e He].
Qed.

(** C2, amended.  A [ClientError] of the probe never leaves
    [is_bucket_exists] as such: when its code reads as an integer other
    than 403 and 404 the function logs nothing and returns [False]; when
    its code does not read as an integer, the [ValueError] of [int]
    leaves [is_bucket_exists] and [create_not_exists_bucket] alike.  The
    creation step catches the [ClientError] of [create_bucket], logs it
    as a warning and returns. *)
Theorem unclassified_probe_error {W} (aws : Provider W)
    (bucket : string) (st : state W) (ce : client_error) (w : W) :
  head_bucket aws bucket (world st) = (Raise (ClientError ce), w) →
  let st1 := probed bucket (Some (ClientError ce)) w st in
  (∀ n, Py.int (Code ce) = Some n → n ≠ 403 → n ≠ 404 →
     is_bucket_exists aws bucket st = (Ok false, st1))
  ∧ (Py.int (Code ce) = None →
     is_bucket_exists aws bucket st = (Raise (ValueError (Code ce)), st1)
     ∧ create_not_exists_bucket aws bucket st
       = (Raise (ValueError (Code ce)), st1))
  ∧ (∀ st2 ce' w',
       is_bucket_exists aws bucket st = (Ok false, st2) →
       create_bucket aws bucket (world st2) = (Raise (ClientError ce'), w') →
       create_not_exists_bucket aws bucket st
       = (Ok tt,
          mkState w' (log st2 ++ [(WARNING, ce_str ce')])
            (trace st2 ++ [(CreateBucket bucket, Some (ClientError ce'))])
            (files st2))).
Proof.
  intros H st1. split; [| split].
  - intros n Hc H3 H4. by eapply is_bucket_exists_other_code.
  - intros Hc.
    pose proof (is_bucket_exists_bad_code aws bucket st ce w H Hc) as Hp.
    split; [exact Hp |].
    unfold create_not_exists_bucket. unfold_run. by rewrite Hp.
  - intros st2 ce' w' Hp Hcr.
    rewrite (create_after_probe aws bucket st st2 Hp), Hcr. reflexivity.
Qed.

Lemma unclassified_probe_error_witness :
  head_bucket (Script.provider server_error) "reports" (world Script.start)
  = (Raise (Script.http "500" "Internal Server Error"), tt)
  ∧ is_bucket_exists (Script.provider server_error) "reports" Script.start
    = (Ok false,
       probed "reports" (Some (Script.http "500" "Internal Server Error"))
         tt Script.start).
Proof.
  split; [reflexivity |].
  apply (proj1 (unclassified_probe_error (Script.provider server_error)
                  "reports" Script.start
                  (mkClientError "500" "Internal Server Error") tt
                  eq_refl) 500);
    [reflexivity | lia | lia].
Defined.

Example symbolic_code_run :
  create_not_exists_bucket (Script.provider symbolic_code) "reports"
    Script.start
  = (Raise (ValueError "AccessDenied"),
     probed "reports" (Some (Script.http "AccessDenied" "Access Denied"))
       tt Script.start).
Proof. reflexivity. Qed.

(** ** The instance lister *)
Section Lister.
Context {W : Type} (aws : Provider W).

Lemma instance_record_tagless instance st :
  tags instance = None →
  instance_record aws instance st = (Raise not_iterable, st).
Proof.
  intros H. unfold instance_record, get_ec2_name. rewrite H. reflexivity.
Qed.

Lemma instance_record_run instance ts st :
  tags instance = Some ts →
  instance_record aws instance st
  = match image_load aws (image_id instance) (world st) with
    | (Ok image, w) =>
        (Ok (<[Ami := match description image with
                       | None => name image
                       | Some d => Some d
                       end]>
               (<[Name := Some (default (instance_id instance)
                                  (first_Name ts))]> ∅)),
         record (ImageLoad (image_id instance)) None w st)
    | (Raise e, w) =>
        (Raise e, record (ImageLoad (image_id instance)) (Some e) w st)
    end.
Proof.
  intros H. unfold instance_record, get_ec2_name. rewrite H. unfold_run.
  destruct (image_load aws (image_id instance) (world st)) as [[image|e] w];
    [| reflexivity].
  cbn. by destruct (first_Name ts).
Qed.

(** An instance record can only come from an instance with a tag list
    whose image loaded. *)
Lemma instance_record_Ok instance st r st' :
  instance_record aws instance st = (Ok r, st') →
  ∃ ts image w,
    tags instance = Some ts
    ∧ image_load aws (image_id instance) (world st) = (Ok image, w)
    ∧ r !! Name
      = Some (Some (default (instance_id instance) (first_Name ts)))
    ∧ r !! Ami
      = Some (match description image with
              | None => name image
              | Some d => Some d
              end).
Proof.
  destruct (tags instance) as [ts|] eqn:Ht.
  - rewrite (instance_record_run _ ts _ Ht).
    destruct (image_load aws (image_id instance) (world st))
      as [[image|e] w]; [| done].
    intros [= <- <-]. exists ts, image, w. repeat split; by simplify_map_eq.
  - by rewrite instance_record_tagless.
Qed.

Lemma for_instances_processed pre rest failure acc st recs st1 :
  processed aws pre st recs st1 →
  for_instances aws (pre ++ rest) failure acc st
  = for_instances aws rest failure (acc ++ recs) st1.
Proof.
  intros H. revert acc.
  induction H as [st|instance pre st r st1 recs st2 Hr _ IH]; intros acc.
  - by rewrite app_nil_r.
  - cbn [app for_instances]. rewrite Hr, IH.
    by rewrite <- app_assoc.
Qed.

(** Every record the loop collects is the record of the instance at the
    same position of the listing. *)
Lemma for_instances_records instances failure acc st out e st' :
  for_instances aws instances failure acc st = ((out, e), st') →
  ∃ recs,
    out = acc ++ recs
    ∧ ∀ i r, recs !! i = Some r →
        ∃ instance sa sb,
          instances !! i = Some instance
          ∧ instance_record aws instance sa = (Ok r, sb).
Proof.
  revert acc st.
  induction instances as [|instance rest IH]; intros acc st H.
  - cbn in H. injection H as <- _ _. exists [].
    split; [by rewrite app_nil_r | by intros i r ?].
  - cbn [for_instances] in H.
    destruct (instance_record aws instance st) as [[r|e'] st1] eqn:Hr.
    + destruct (IH _ _ H) as (recs & -> & Hrecs).
      exists (r :: recs). split; [by rewrite <- app_assoc |].
      intros [|i] r' Hi.
      * injection Hi as <-. by exists instance, st, st1.
      * by apply Hrecs.
    + injection H as <- _ _. exists [].
      split; [by rewrite app_nil_r | by intros i r ?].
Qed.

Lemma get_ec2_list_records st l w recs st' :
  instances_filter aws filters (world st) = (l, w) →
  get_ec2_list aws st = (Ok recs, st') →
  ∀ i r, recs !! i = Some r →
    ∃ instance sa sb,
      yielded l !! i = Some instance
      ∧ instance_record aws instance sa = (Ok r, sb).
Proof.
  intros Hl H. unfold get_ec2_list in H. rewrite Hl in H.
  destruct (for_instances aws (yielded l) (failure l) []
              (record (InstancesFilter filters) (failure l) w st))
    as [[out e] st1] eqn:Hloop.
  apply for_instances_records in Hloop as (recs' & -> & Hrecs).
  cbn [app] in H.
  destruct e as [[ce| | | |]|]; unfold logger_warning in H; unfold_run;
    cbn in H; try done; by injection H as <- _.
Qed.

(** The records [get_ec2_list] returns carry both columns, so the report
    writer finds the two keys it reads. *)
Lemma get_ec2_list_columns st recs st' :
  get_ec2_list aws st = (Ok recs, st') →
  ∀ r, r ∈ recs → is_Some (r !! Name) ∧ is_Some (r !! Ami).
Proof.
  intros H r Hr. apply list_elem_of_lookup in Hr as [i Hi].
  destruct (instances_filter aws filters (world st)) as [l w] eqn:Hl.
  destruct (get_ec2_list_records st l w recs st' Hl H i r Hi)
    as (instance & sa & sb & _ & Hrec).
  apply instance_record_Ok in Hrec as (ts & image & w' & _ & _ & Hn & Ha).
  rewrite Hn, Ha. by split.
Qed.

(** [get_ec2_list] on a listing that the loop leaves by a [ClientError],
    by an other exception, or by exhausting it. *)
Lemma get_ec2_list_run st l w pre rest recs st1 :
  instances_filter aws filters (world st) = (l, w) →
  yielded l = pre ++ rest →
  processed aws pre (listed l w st) recs st1 →
  get_ec2_list aws st
  = match for_instances aws rest (failure l) recs st1 with
    | ((running_istances, None), st2) => (Ok running_istances, st2)
    | ((running_istances, Some (ClientError ce)), st2) =>
        (Ok running_istances, warned (ce_str ce) st2)
    | ((_, Some e), st2) => (Raise e, st2)
    end.
Proof.
  intros Hl Hy Hp. unfold get_ec2_list. rewrite Hl, Hy.
  fold (listed l w st).
  rewrite (for_instances_processed pre rest _ [] _ _ _ Hp). cbn [app].
  destruct (for_instances aws rest (failure l) recs st1)
    as [[out [[ce| | | |]|]] st2]; reflexivity.
Qed.

(** No [ClientError] leaves [get_ec2_list]. *)
Lemma get_ec2_list_no_ClientError st ce st' :
  get_ec2_list aws st ≠ (Raise (ClientError ce), st').
Proof.
  unfold get_ec2_list.
  destruct (instances_filter aws filters (world st)) as [l w].
  destruct (for_instances aws (yielded l) (failure l) [] _)
    as [[out [[ce'| | | |]|]] st2]; unfold logger_warning; unfold_run;
    cbn; congruence.
Qed.

End Lister.

(** *** The display name *)

Lemma first_Name_absent (ts : list Tag) :
  (∀ t, t ∈ ts → Key t ≠ "Name") → first_Name ts = None.
Proof.
  induction ts as [|t ts IH]; intros H; [done |]. cbn.
  destruct (String.eqb_spec (Key t) "Name") as [He|_].
  - by destruct (H t (list_elem_of_here _ _)).
  - apply IH. intros u Hu. apply H. by apply list_elem_of_further.
Qed.

Lemma first_Name_first (pre post : list Tag) (t : Tag) :
  Key t = "Name" →
  (∀ u, u ∈ pre → Key u ≠ "Name") →
  first_Name (pre ++ t :: post) = Some (Value t).
Proof.
  intros Ht. induction pre as [|u pre IH]; intros H; cbn.
  - by rewrite Ht.
  - destruct (String.eqb_spec (Key u) "Name") as [He|_].
    + by destruct (H u (list_elem_of_here _ _)).
    + apply IH. intros v Hv. apply H. by apply list_elem_of_further.
Qed.

Lemma first_Name_unique (ts : list Tag) (t : Tag) :
  NoDup (Key <$> ts) → t ∈ ts → Key t = "Name" →
  first_Name ts = Some (Value t).
Proof.
  induction ts as [|u ts IH]; intros Hnd Hin Ht; [by inversion Hin |].
  cbn in *. apply NoDup_cons in Hnd as [Hu Hnd].
  destruct (String.eqb_spec (Key u) "Name") as [He|Hne].
  - apply elem_of_cons in Hin as [->|Hin]; [done |].
    destruct Hu. rewrite He, <- Ht. by apply list_elem_of_fmap_2.
  - apply elem_of_cons in Hin as [->|Hin]; [done |]. by apply IH.
Qed.

(** The part of C5 that holds: of instances with a tag list.  Every
    record [get_ec2_list] returns stands at the position of an instance of
    the listing that has a tag list, and its display name is the instance
    identifier when no tag of the list has the key [Name], and the value
    of the instance's [Name] tag otherwise (of the first such tag; of the
    only one when the keys of the tags are distinct, as they are on a
    resource). *)
Lemma display_name_of_record {W} (aws : Provider W) (st : state W)
    (l : listing) (w : W) (recs : list instance_info) (st' : state W) :
  instances_filter aws filters (world st) = (l, w) →
  get_ec2_list aws st = (Ok recs, st') →
  ∀ i r, recs !! i = Some r →
    ∃ instance ts,
      yielded l !! i = Some instance
      ∧ tags instance = Some ts
      ∧ ((∀ t, t ∈ ts → Key t ≠ "Name") →
         r !! Name = Some (Some (instance_id instance)))
      ∧ (∀ pre t post,
           ts = pre ++ t :: post → Key t = "Name" →
           (∀ u, u ∈ pre → Key u ≠ "Name") →
           r !! Name = Some (Some (Value t)))
      ∧ (NoDup (Key <$> ts) →
         ∀ t, t ∈ ts → Key t = "Name" → r !! Name = Some (Some (Value t))).
Proof.
  intros Hl H i r Hi.
  destruct (get_ec2_list_records aws st l w recs st' Hl H i r Hi)
    as (instance & sa & sb & Hy & Hr).
  apply instance_record_Ok in Hr as (ts & image & w' & Ht & _ & Hn & _).
  exists instance, ts. split; [done |]. split; [done |].
  rewrite Hn. split; [| split].
  - intros Hno. by rewrite (first_Name_absent ts Hno).
  - intros pre t post -> Hk Hpre. by rewrite (first_Name_first pre post t).
  - intros Hnd t Hin Hk. by rewrite (first_Name_unique ts t).
Qed.

Example end_to_end_records :
  (get_ec2_list (Script.provider Script.end_to_end) Script.start).1
  = Ok [web_1_record; untagged_record].
Proof. reflexivity. Qed.

(** The second instance of the end-to-end scenario has an empty tag list:
    its record carries the instance identifier. *)
Example untagged_display_name :
  tags Script.untagged = Some []
  ∧ untagged_record !! Name = Some (Some (instance_id Script.untagged)).
Proof. split; reflexivity. Qed.

(** C5, as the code has it.  An instance that carries no tag at all has
    [None] as its tag collection, so no tag of it has the key [Name]; yet
    [get_ec2_list] never gives it a record with its instance identifier as
    display name.  Whenever the listing yields such an instance at
    position [i], a list that [get_ec2_list] returns stops before that
    position; and when the loop reaches the instance, that is when the
    instances yielded before it were turned into their records, iterating
    its tags raises a [TypeError] and [get_ec2_list] returns no list at
    all. *)
Theorem tagless_instance_gets_no_record {W} (aws : Provider W)
    (st : state W) (l : listing) (w : W) (i : nat) (instance : Instance)
    (res : result (list instance_info)) (st' : state W) :
  instances_filter aws filters (world st) = (l, w) →
  yielded l !! i = Some instance →
  tags instance = None →
  get_ec2_list aws st = (res, st') →
  (∀ recs, res = Ok recs → (length recs ≤ i)%nat)
  ∧ (∀ recs1 st1,
       processed aws (take i (yielded l)) (listed l w st) recs1 st1 →
       res = Raise (TypeError "'NoneType' object is not iterable")
       ∧ st' = st1).
Proof.
  intros Hl Hy Ht Hrun. split.
  - intros recs ->. destruct (decide (length recs ≤ i)%nat) as [|Hlt]; [done |].
    destruct (lookup_lt_is_Some_2 recs i) as [r Hr]; [lia |].
    destruct (get_ec2_list_records aws st l w recs st' Hl Hrun i r Hr)
      as (instance' & sa & sb & Hy' & Hrec).
    rewrite Hy in Hy'. injection Hy' as <-.
    by rewrite (instance_record_tagless aws instance sa Ht) in Hrec.
  - intros recs1 st1 Hp.
    rewrite (get_ec2_list_run aws st l w (take i (yielded l))
               (drop i (yielded l)) recs1 st1 Hl) in Hrun;
      [| by rewrite take_drop | done].
    rewrite (drop_S _ _ _ Hy) in Hrun. cbn [for_instances] in Hrun.
    rewrite (instance_record_tagless aws instance st1 Ht) in Hrun.
    by injection Hrun as <- <-.
Qed.

Lemma tagless_instance_gets_no_record_witness :
  yielded (Script.instances tagless_second) !! 1%nat = Some Script.tagless
  ∧ tags Script.tagless = None
  ∧ processed (Script.provider tagless_second) [Script.web_1]
      (listed (Script.instances tagless_second) tt Script.start)
      [web_1_record] (after_web_1 tagless_second)
  ∧ (get_ec2_list (Script.provider tagless_second) Script.start).1
    = Raise (TypeError "'NoneType' object is not iterable").
Proof.
  assert (processed (Script.provider tagless_second) [Script.web_1]
            (listed (Script.instances tagless_second) tt Script.start)
            [web_1_record] (after_web_1 tagless_second)) as Hp.
  { apply (processed_cons _ Script.web_1 [] _ web_1_record
             (after_web_1 tagless_second) [] _);
      [reflexivity | apply processed_nil]. }
  split; [reflexivity |]. split; [reflexivity |]. split; [exact Hp |].
  exact (proj1 (proj2 (tagless_instance_gets_no_record
                         (Script.provider tagless_second) Script.start
                         (Script.instances tagless_second) tt 1%nat
                         Script.tagless
                         (get_ec2_list (Script.provider tagless_second)
                            Script.start).1
                         (get_ec2_list (Script.provider tagless_second)
                            Script.start).2
                         eq_refl eq_refl eq_refl eq_refl)
                      [web_1_record] (after_web_1 tagless_second) Hp)).
Defined.

(** The listing yields one running instance, which carries no tag: the
    caller gets a [TypeError], not the record naming [i-0ddd444]. *)
Example tagless_alone :
  get_ec2_list
    (Script.provider
       (listing_scenario (mkListing [Script.tagless] None) Script.catalogue))
    Script.start
  = (Raise (TypeError "'NoneType' object is not iterable"),
     mkState tt [] [(InstancesFilter filters, None)] ∅).
Proof. reflexivity. Qed.

(** *** The image description *)

(** C4, as the claim has it, at a concrete input: the image of the one
    listed instance has the empty string as its description and the name
    [custom-ami]; the record carries the empty description, not the
    name. *)
Lemma empty_description_is_kept :
  Script.catalogue "ami-3"
  = Ok (mkImage (Some EmptyString) (Some "custom-ami"))
  ∧ ∃ r,
      (get_ec2_list (Script.provider blank_description) Script.start).1
      = Ok [r]
      ∧ r !! Ami = Some (Some EmptyString)
      ∧ r !! Ami ≠ Some (Some "custom-ami").
Proof.
  split; [reflexivity |].
  exists (<[Ami := Some EmptyString]> (<[Name := Some "i-0eee555"]> ∅)).
  split; [reflexivity |]. split; [reflexivity |]. discriminate.
Qed.

(** C4, amended.  Every record [get_ec2_list] returns stands at the
    position of an instance of the listing whose image loaded, and its
    image-description field is the name of that image when the
    description of the image is absent ([None]), and the description,
    empty or not, when it is present. *)
Theorem image_description_of_record {W} (aws : Provider W) (st : state W)
    (l : listing) (w : W) (recs : list instance_info) (st' : state W) :
  instances_filter aws filters (world st) = (l, w) →
  get_ec2_list aws st = (Ok recs, st') →
  ∀ i r, recs !! i = Some r →
    ∃ instance image w1 w2,
      yielded l !! i = Some instance
      ∧ image_load aws (image_id instance) w1 = (Ok image, w2)
      ∧ (description image = None → r !! Ami = Some (name image))
      ∧ (∀ d, description image = Some d → r !! Ami = Some (Some d)).
Proof.
  intros Hl H i r Hi.
  destruct (get_ec2_list_records aws st l w recs st' Hl H i r Hi)
    as (instance & sa & sb & Hy & Hr).
  apply instance_record_Ok in Hr as (ts & image & w' & _ & Him & _ & Ha).
  exists instance, image, (world sa), w'. split; [done |]. split; [done |].
  rewrite Ha. split; [by intros -> | by intros d ->].
Qed.

Lemma image_description_of_record_witness :
  (get_ec2_list (Script.provider Script.end_to_end) Script.start).1
  = Ok [web_1_record; untagged_record]
  ∧ ∃ instance image (w1 w2 : unit),
      [Script.web_1; Script.untagged] !! 1%nat = Some instance
      ∧ image_load (Script.provider Script.end_to_end) (image_id instance) w1
        = (Ok image, w2)
      ∧ (description image = None →
         untagged_record !! Ami = Some (name image))
      ∧ (∀ d, description image = Some d →
         untagged_record !! Ami = Some (Some d)).
Proof.
  split; [reflexivity |].
  exact (image_description_of_record (Script.provider Script.end_to_end)
           Script.start (Script.instances Script.end_to_end) tt
           [web_1_record; untagged_record]
           (get_ec2_list (Script.provider Script.end_to_end) Script.start).2
           eq_refl eq_refl 1%nat untagged_record eq_refl).
Defined.

(** *** Instances without a tag collection *)

(** C6, as the claim has it, at a concrete input: the second instance of
    the listing has no tag collection, the image lookup of the first one
    raises a [ClientError], and [get_ec2_list] logs it and returns the
    empty list; no exception leaves it. *)
Lemma tagless_instance_not_reached :
  Script.tagless ∈ yielded (Script.instances images_denied)
  ∧ tags Script.tagless = None
  ∧ get_ec2_list (Script.provider images_denied) Script.start
    = (Ok [],
       mkState tt [(WARNING, "You are not authorized")]
         [(InstancesFilter filters, None);
          (ImageLoad "ami-1", Some unauthorized)]
         ∅)
  ∧ ¬ ∃ e, (get_ec2_list (Script.provider images_denied) Script.start).1
           = Raise e.
Proof.
  split; [apply list_elem_of_further, list_elem_of_here |].
  split; [reflexivity |]. split; [reflexivity |]. by intros [e He].
Qed.

(** C6, amended.  When the loop of [get_ec2_list] reaches an instance
    whose tag collection is absent, that is when every instance yielded
    before it was turned into its record, iterating [instance.tags]
    raises a [TypeError]; it is not a [ClientError], so it leaves
    [get_ec2_list], in the state the loop had reached. *)
Theorem tagless_instance_raises {W} (aws : Provider W) (st : state W)
    (l : listing) (w : W) (pre : list Instance) (bad : Instance)
    (post : list Instance) (recs : list instance_info) (st1 : state W) :
  instances_filter aws filters (world st) = (l, w) →
  yielded l = pre ++ bad :: post →
  tags bad = None →
  processed aws pre (listed l w st) recs st1 →
  get_ec2_list aws st = (Raise not_iterable, st1)
  ∧ is_ClientError not_iterable = false.
Proof.
  intros Hl Hy Ht Hp. split; [| reflexivity].
  rewrite (get_ec2_list_run aws st l w pre (bad :: post) recs st1 Hl Hy Hp).
  cbn [for_instances]. by rewrite (instance_record_tagless aws bad st1 Ht).
Qed.

Lemma tagless_instance_raises_witness :
  tags Script.tagless = None
  ∧ processed (Script.provider tagless_second) [Script.web_1]
      (listed (Script.instances tagless_second) tt Script.start)
      [web_1_record] (after_web_1 tagless_second)
  ∧ get_ec2_list (Script.provider tagless_second) Script.start
    = (Raise not_iterable, after_web_1 tagless_second).
Proof.
  assert (processed (Script.provider tagless_second) [Script.web_1]
            (listed (Script.instances tagless_second) tt Script.start)
            [web_1_record] (after_web_1 tagless_second)) as Hp.
  { apply (processed_cons _ Script.web_1 [] _ web_1_record
             (after_web_1 tagless_second) [] _);
      [reflexivity | apply processed_nil]. }
  split; [reflexivity |]. split; [exact Hp |].
  exact (proj1 (tagless_instance_raises (Script.provider tagless_second)
                  Script.start (Script.instances tagless_second) tt
                  [Script.web_1] Script.tagless [Script.untagged]
                  [web_1_record] (after_web_1 tagless_second)
                  eq_refl eq_refl eq_refl Hp)).
Defined.

(** *** Provider errors while listing *)

(** C8. A [ClientError] raised while listing, by the iteration of the
    collection once the instances [pre] have been yielded or by the image
    lookup of the instance that follows [pre], does not leave
    [get_ec2_list]: the function logs [str(ce)] as a warning and returns
    the records of [pre], collected before the error (none when [pre] is
    empty).  No [ClientError] ever leaves [get_ec2_list]. *)
Theorem listing_error_returns_collected {W} (aws : Provider W)
    (st : state W) (l : listing) (w : W) (pre : list Instance)
    (recs : list instance_info) (st1 st2 : state W) (ce : client_error) :
  instances_filter aws filters (world st) = (l, w) →
  processed aws pre (listed l w st) recs st1 →
  (yielded l = pre ∧ failure l = Some (ClientError ce) ∧ st2 = st1)
  ∨ (∃ bad post ts w2,
       yielded l = pre ++ bad :: post
       ∧ tags bad = Some ts
       ∧ image_load aws (image_id bad) (world st1)
         = (Raise (ClientError ce), w2)
       ∧ st2 = record (ImageLoad (image_id bad)) (Some (ClientError ce))
                 w2 st1) →
  get_ec2_list aws st = (Ok recs, warned (ce_str ce) st2)
  ∧ length recs = length pre
  ∧ ∀ st0 ce0 st0', get_ec2_list aws st0 ≠ (Raise (ClientError ce0), st0').
Proof.
  intros Hl Hp Hcase.
  assert (length recs = length pre) as Hlen.
  { clear Hcase. induction Hp; cbn; [done | by f_equal]. }
  split; [| split; [exact Hlen | apply get_ec2_list_no_ClientError]].
  destruct Hcase as [(Hy & Hf & ->)|(bad & post & ts & w2 & Hy & Ht & Hi & ->)].
  - rewrite (get_ec2_list_run aws st l w pre [] recs st1 Hl);
      [| by rewrite app_nil_r | done].
    cbn [for_instances]. by rewrite Hf.
  - rewrite (get_ec2_list_run aws st l w pre (bad :: post) recs st1 Hl Hy Hp).
    cbn [for_instances]. rewrite (instance_record_run aws bad ts st1 Ht), Hi.
    reflexivity.
Qed.

Lemma listing_error_returns_collected_witness :
  processed (Script.provider image_lookup_fails) [Script.web_1]
    (listed (Script.instances image_lookup_fails) tt Script.start)
    [web_1_record] (after_web_1 image_lookup_fails)
  ∧ image_load (Script.provider image_lookup_fails) "ami-9" tt
    = (Raise (ClientError not_found), tt)
  ∧ get_ec2_list (Script.provider image_lookup_fails) Script.start
    = (Ok [web_1_record],
       warned "The image id does not exist"
         (record (ImageLoad "ami-9") (Some (ClientError not_found)) tt
            (after_web_1 image_lookup_fails))).
Proof.
  assert (processed (Script.provider image_lookup_fails) [Script.web_1]
            (listed (Script.instances image_lookup_fails) tt Script.start)
            [web_1_record] (after_web_1 image_lookup_fails)) as Hp.
  { apply (processed_cons _ Script.web_1 [] _ web_1_record
             (after_web_1 image_lookup_fails) [] _);
      [reflexivity | apply processed_nil]. }
  split; [exact Hp |]. split; [reflexivity |].
  refine (proj1 (listing_error_returns_collected
                   (Script.provider image_lookup_fails) Script.start
                   (Script.instances image_lookup_fails) tt [Script.web_1]
                   [web_1_record] (after_web_1 image_lookup_fails) _
                   not_found eq_refl Hp _)).
  right. exists missing_image, [Script.untagged], [mkTag "Name" "batch"], tt.
  repeat split; reflexivity.
Defined.

Example page_request_fails :
  get_ec2_list
    (Script.provider
       (listing_scenario
          (mkListing [Script.web_1]
             (Some (Script.http "RequestLimitExceeded" "Slow down")))
          Script.catalogue))
    Script.start
  = (Ok [web_1_record],
     mkState tt [(WARNING, "Slow down")]
       [(InstancesFilter filters,
         Some (Script.http "RequestLimitExceeded" "Slow down"));
        (ImageLoad "ami-1", None)]
       ∅).
Proof. reflexivity. Qed.

(** ** The report writer *)

Lemma writerow_report_row (c_name c_ami : option string) :
  writerow ";" dquote [c_name; c_ami] = report_row c_name c_ami.
Proof.
  unfold writerow, report_row. cbn [fmap list_fmap join].
  change (quote_field dquote) with quoted.
  rewrite append_assoc, append_cons. reflexivity.
Qed.

(** Quoting leaves a field without quote characters as it is. *)
Lemma double_quotes_plain (q : ascii) (s : string) :
  (∀ c, c ∈ list_ascii_of_string s → c ≠ q) → double_quotes q s = s.
Proof.
  induction s as [|c s IH]; intros H; [done |]. cbn.
  destruct (Ascii.eqb_spec c q) as [->|_].
  - by destruct (H q (list_elem_of_here _ _)).
  - f_equal. apply IH. intros d Hd. apply H. by apply list_elem_of_further.
Qed.

(** Quoting, character by character: a quote character becomes two, any
    other character stays. *)
Lemma double_quotes_chars (q : ascii) (s : string) :
  list_ascii_of_string (double_quotes q s)
  = list_ascii_of_string s ≫= (λ c, if Ascii.eqb c q then [q; q] else [c]).
Proof.
  induction s as [|c s IH]; [done |]. cbn.
  destruct (Ascii.eqb c q); cbn; by rewrite IH.
Qed.

Lemma alter_known (m : gmap string string) (k c : string)
    (f : string → string) :
  m !! k = Some c → alter f k m = <[k := f c]> m.
Proof.
  intros H. apply map_eq. intros j.
  rewrite lookup_alter, lookup_insert. case_decide; [| done].
  subst. by rewrite H.
Qed.

Section Writer.
Context {W : Type} (aws : Provider W).

(** A row write that returns found both columns and appended the row. *)
Lemma write_record_Ok file_name (r : instance_info) (st st' : state W) c :
  files st !! file_name = Some c →
  write_record aws file_name r st = (Ok tt, st') →
  is_Some (r !! Name) ∧ is_Some (r !! Ami)
  ∧ st' = with_files (<[file_name := c +:+ row_of r]> (files st)) st.
Proof.
  intros Hc. unfold write_record, getitem, file_write, row_of. unfold_run.
  destruct (r !! Name) as [n|]; [| done].
  destruct (r !! Ami) as [a|]; [| done]. cbn.
  destruct (os_write aws (files st) file_name _ (world st)); [done |].
  intros [= <-]. rewrite writerow_report_row, (alter_known _ _ c _ Hc).
  by repeat split.
Qed.

Lemma for_each_write_record_Ok file_name (records : list instance_info) :
  ∀ (st st' : state W) c,
    files st !! file_name = Some c →
    for_each records (write_record aws file_name) st = (Ok tt, st') →
    (∀ r, r ∈ records → is_Some (r !! Name) ∧ is_Some (r !! Ami))
    ∧ st' = with_files
              (<[file_name := c +:+ fstring (row_of <$> records)]> (files st))
              st.
Proof.
  induction records as [|r records IH]; intros st st' c Hc.
  - cbn. unfold Run.ret, with_files. intros [= <-].
    split; [by intros r Hr; inversion Hr |].
    rewrite append_empty_r, (insert_id _ _ _ Hc). by destruct st.
  - cbn [for_each]. unfold Run.bind.
    destruct (write_record aws file_name r st) as [[[]|e] st1] eqn:Hr;
      [| done].
    apply (write_record_Ok _ _ _ _ c Hc) in Hr as (Hn & Ha & ->).
    intros H.
    apply (IH _ _ (c +:+ row_of r)) in H as [Hkeys ->];
      [| by cbn; rewrite lookup_insert_eq].
    split.
    + intros r' Hr'. apply elem_of_cons in Hr' as [->|Hr']; [done |].
      by apply Hkeys.
    + unfold with_files. cbn. by rewrite insert_insert_eq, append_assoc.
Qed.

(** What [write_local_file] has done when it returns. *)
Lemma write_local_file_Ok file_name (records : list instance_info)
    (st st' : state W) :
  write_local_file aws file_name records st = (Ok tt, st') →
  (∀ r, r ∈ records → is_Some (r !! Name) ∧ is_Some (r !! Ami))
  ∧ st' = mkState (world st) (log st) (trace st ++ [(Open file_name, None)])
            (<[file_name := fstring (row_of <$> records)]> (files st)).
Proof.
  unfold write_local_file. unfold mbind, M_bind. unfold Run.bind at 1.
  unfold on_files.
  destruct (os_open aws (files st) file_name (world st)); [done |].
  intros H.
  apply (for_each_write_record_Ok _ _ _ _ EmptyString) in H as [Hkeys ->];
    [| by cbn; rewrite lookup_insert_eq].
  split; [done |]. unfold with_files. cbn. by rewrite insert_insert_eq.
Qed.

Lemma write_record_run file_name (r : instance_info) (st : state W) c :
  is_Some (r !! Name) → is_Some (r !! Ami) →
  files st !! file_name = Some c →
  (∀ text, os_write aws (files st) file_name text (world st) = None) →
  write_record aws file_name r st
  = (Ok tt, with_files (<[file_name := c +:+ row_of r]> (files st)) st).
Proof.
  intros [n Hn] [a Ha] Hc Hw.
  unfold write_record, getitem, file_write, row_of.
  unfold_run. rewrite Hn, Ha. cbn. rewrite Hw.
  by rewrite writerow_report_row, (alter_known _ _ c).
Qed.

Lemma for_each_write_record file_name (records : list instance_info) :
  (∀ r, r ∈ records → is_Some (r !! Name) ∧ is_Some (r !! Ami)) →
  ∀ (st : state W) c,
    files st !! file_name = Some c →
    (∀ fs text, os_write aws fs file_name text (world st) = None) →
    for_each records (write_record aws file_name) st
    = (Ok tt,
       with_files
         (<[file_name := c +:+ fstring (row_of <$> records)]> (files st))
         st).
Proof.
  induction records as [|r records IH]; intros Hkeys st c Hc Hw.
  - cbn. unfold Run.ret, with_files.
    rewrite append_empty_r, (insert_id _ _ _ Hc). by destruct st.
  - cbn [for_each]. unfold Run.bind.
    destruct (Hkeys r (list_elem_of_here _ _)) as [Hn Ha].
    rewrite (write_record_run file_name r st c Hn Ha Hc (Hw _)).
    rewrite (IH (λ r' Hr', Hkeys r' (list_elem_of_further _ _ _ Hr')) _
               (c +:+ row_of r));
      [| by cbn; rewrite lookup_insert_eq | exact Hw].
    cbn. unfold with_files. cbn.
    by rewrite insert_insert_eq, append_assoc.
Qed.

(** [write_local_file] on records that carry both columns, when the file
    can be opened and written to. *)
Lemma write_local_file_run file_name (records : list instance_info)
    (st : state W) :
  (∀ r, r ∈ records → is_Some (r !! Name) ∧ is_Some (r !! Ami)) →
  writable aws file_name st →
  write_local_file aws file_name records st
  = (Ok tt,
     mkState (world st) (log st) (trace st ++ [(Open file_name, None)])
       (<[file_name := fstring (row_of <$> records)]> (files st))).
Proof.
  intros Hkeys [Ho Hw]. unfold write_local_file. unfold_run. rewrite Ho. cbn.
  rewrite (for_each_write_record file_name records Hkeys _ EmptyString);
    [| by cbn; rewrite lookup_insert_eq | exact Hw].
  unfold with_files. cbn. by rewrite insert_insert_eq.
Qed.

End Writer.

(** C7. Given records that carry both columns and a file that can be
    opened and written to, [write_local_file] opens the file anew and
    leaves in it the concatenation of exactly one row per record, in the
    order of the records and with nothing before the row of the first
    record.  The row of a record is a double quote, the characters of its
    display name (none when the name is [None]) with every double quote
    among them written twice, a double quote, a semicolon, the image
    description written the same way between double quotes, and the line
    terminator CR LF. *)
Theorem report_has_one_row_per_record {W} (aws : Provider W) (st : state W)
    (file_name : string) (records : list instance_info) :
  (∀ r, r ∈ records → is_Some (r !! Name) ∧ is_Some (r !! Ami)) →
  writable aws file_name st →
  ∃ rows : list string,
    write_local_file aws file_name records st
    = (Ok tt,
       mkState (world st) (log st) (trace st ++ [(Open file_name, None)])
         (<[file_name := fstring rows]> (files st)))
    ∧ length rows = length records
    ∧ ∀ i r c_name c_ami,
        records !! i = Some r →
        r !! Name = Some c_name → r !! Ami = Some c_ami →
        ∃ n a : string,
          rows !! i
          = Some (String dquote
                    (n +:+ String dquote (String ";" (String dquote
                       (a +:+ String dquote
                                (String CR (String LF EmptyString)))))))
          ∧ list_ascii_of_string n
            = list_ascii_of_string (default EmptyString c_name)
              ≫= (λ c, if Ascii.eqb c dquote then [dquote; dquote] else [c])
          ∧ list_ascii_of_string a
            = list_ascii_of_string (default EmptyString c_ami)
              ≫= (λ c, if Ascii.eqb c dquote then [dquote; dquote] else [c]).
Proof.
  intros Hkeys Hw. exists (row_of <$> records). split; [| split].
  - by apply write_local_file_run.
  - by rewrite length_fmap.
  - intros i r c_name c_ami Hi Hn Ha.
    exists (double_quotes dquote (field_text c_name)),
           (double_quotes dquote (field_text c_ami)).
    split; [| split].
    + rewrite list_lookup_fmap, Hi. cbn. f_equal.
      unfold row_of, report_row, quoted, lineterminator. rewrite Hn, Ha. cbn.
      rewrite !append_cons, !append_assoc. reflexivity.
    + rewrite double_quotes_chars. by destruct c_name.
    + rewrite double_quotes_chars. by destruct c_ami.
Qed.

Example end_to_end_report :
  files (write_local_file (Script.provider Script.end_to_end) "report.csv"
           [web_1_record; untagged_record] Script.start).2 !! "report.csv"
  = Some (fstring
            [String dquote ("web-1" +:+ String dquote (";" +:+
               String dquote ("Ubuntu 22.04" +:+ String dquote
                 lineterminator)));
             String dquote ("i-0abc123" +:+ String dquote (";" +:+
               String dquote ("custom-ami" +:+ String dquote
                 lineterminator)))]).
Proof. reflexivity. Qed.

Lemma report_has_one_row_per_record_witness :
  (∀ r, r ∈ [web_1_record; quoted_record] →
        is_Some (r !! Name) ∧ is_Some (r !! Ami))
  ∧ writable (Script.provider Script.end_to_end) "report.csv" Script.start
  ∧ ∃ rows : list string,
      write_local_file (Script.provider Script.end_to_end) "report.csv"
        [web_1_record; quoted_record] Script.start
      = (Ok tt,
         mkState tt [] [(Open "report.csv", None)]
           (<["report.csv" := fstring rows]> ∅))
      ∧ length rows = 2%nat
      ∧ ∀ i r c_name c_ami,
          [web_1_record; quoted_record] !! i = Some r →
          r !! Name = Some c_name → r !! Ami = Some c_ami →
          ∃ n a : string,
            rows !! i
            = Some (String dquote
                      (n +:+ String dquote (String ";" (String dquote
                         (a +:+ String dquote
                                  (String CR (String LF EmptyString)))))))
            ∧ list_ascii_of_string n
              = list_ascii_of_string (default EmptyString c_name)
                ≫= (λ c, if Ascii.eqb c dquote then [dquote; dquote]
                         else [c])
            ∧ list_ascii_of_string a
              = list_ascii_of_string (default EmptyString c_ami)
                ≫= (λ c, if Ascii.eqb c dquote then [dquote; dquote]
                         else [c]).
Proof.
  assert (∀ r, r ∈ [web_1_record; quoted_record] →
               is_Some (r !! Name) ∧ is_Some (r !! Ami)) as Hkeys.
  { intros r Hr. apply elem_of_cons in Hr as [->|Hr];
      [split; eexists; reflexivity |].
    apply list_elem_of_singleton in Hr as ->. split; eexists; reflexivity. }
  assert (writable (Script.provider Script.end_to_end) "report.csv"
            Script.start) as Hw.
  { split; [reflexivity | intros fs text; reflexivity]. }
  split; [exact Hkeys |]. split; [exact Hw |].
  exact (report_has_one_row_per_record (Script.provider Script.end_to_end)
           Script.start "report.csv" [web_1_record; quoted_record]
           Hkeys Hw).
Defined.

(** A name that holds a double quote and an absent description. *)
Example quoted_report :
  files (write_local_file (Script.provider Script.end_to_end) "report.csv"
           [quoted_record] Script.start).2 !! "report.csv"
  = Some (String dquote ("db " +:+ String dquote (String dquote ("main"
            +:+ String dquote (String dquote (String dquote (";"
            +:+ String dquote (String dquote lineterminator)))))))).
Proof. reflexivity. Qed.

(** ** The command *)
Section Command.
Context {W : Type} (aws : Provider W).

(** *** Laws of the monad, pointwise *)

Lemma bind_assoc {A B C} (m : M W A) (f : A → M W B) (g : B → M W C) st :
  Run.bind (Run.bind m f) g st = Run.bind m (λ a, Run.bind (f a) g) st.
Proof. unfold Run.bind. by destruct (m st) as [[a|e] st1]. Qed.

Lemma bind_ext {A B} (m : M W A) (f g : A → M W B) st :
  (∀ a st1, f a st1 = g a st1) → Run.bind m f st = Run.bind m g st.
Proof. intros H. unfold Run.bind. by destruct (m st) as [[a|e] st1]. Qed.

Lemma try_except_ext {A} (m m' : M W A) (h : client_error → M W A) st :
  m st = m' st → try_except m h st = try_except m' h st.
Proof. intros H. unfold try_except. by rewrite H. Qed.

(** *** The [try] block of the command and its two halves *)

Lemma create_running_ec2_list_body region st :
  create_running_ec2_list aws region st
  = try_except (command_body aws region)
      (λ ce, logger_error (ce_str ce)) st.
Proof.
  unfold create_running_ec2_list, command_body, resolve_account, report.
  apply try_except_ext. unfold mbind, M_bind.
  repeat (rewrite bind_assoc; apply bind_ext; intros ? ?).
  reflexivity.
Qed.

Lemma command_body_halves region st :
  command_body aws region st
  = Run.bind (prepare aws region) (finish aws) st.
Proof.
  unfold command_body, resolve_account, report, prepare.
  unfold mbind, M_bind.
  repeat (rewrite ?bind_assoc;
          first [reflexivity | apply bind_ext; intros ? ?; cbn beta]).
Qed.

Lemma create_running_ec2_list_halves region st :
  create_running_ec2_list aws region st
  = try_except (Run.bind (prepare aws region) (finish aws))
      (λ ce, logger_error (ce_str ce)) st.
Proof.
  rewrite create_running_ec2_list_body. apply try_except_ext.
  apply command_body_halves.
Qed.

(** *** Calls that are neither the upload nor the cleanup *)

Lemma quiet_from_refl (st : state W) : quiet_from st st.
Proof. exists []. by rewrite app_nil_r. Qed.

Lemma quiet_from_trans (st0 st1 st2 : state W) :
  quiet_from st0 st1 → quiet_from st1 st2 → quiet_from st0 st2.
Proof.
  intros (evs1 & H1 & Hq1) (evs2 & H2 & Hq2). exists (evs1 ++ evs2).
  split; [by rewrite H2, H1, app_assoc | by apply Forall_app].
Qed.

Lemma quiet_ret {A} (a : A) : quiet_run (@Run.ret W A a).
Proof. intros st. apply quiet_from_refl. Qed.

Lemma quiet_raise {A} (e : exn) : quiet_run (@Run.raise W A e).
Proof. intros st. apply quiet_from_refl. Qed.

Lemma quiet_bind {A B} (m : M W A) (k : A → M W B) :
  quiet_run m → (∀ a, quiet_run (k a)) → quiet_run (Run.bind m k).
Proof.
  intros Hm Hk st. unfold Run.bind. specialize (Hm st).
  destruct (m st) as [[a|e] st1]; [| exact Hm].
  exact (quiet_from_trans _ _ _ Hm (Hk a st1)).
Qed.

Lemma quiet_try {A} (m : M W A) (h : client_error → M W A) :
  quiet_run m → (∀ ce, quiet_run (h ce)) → quiet_run (try_except m h).
Proof.
  intros Hm Hh st. unfold try_except. specialize (Hm st).
  destruct (m st) as [[a|[ce| | | |]] st1]; try exact Hm.
  exact (quiet_from_trans _ _ _ Hm (Hh ce st1)).
Qed.

Lemma quiet_emit lv msg : quiet_run (@emit W lv msg).
Proof. intros st. exists []. by rewrite app_nil_r. Qed.

Lemma quiet_record c e w (st : state W) :
  quiet_call c → quiet_from st (record c e w st).
Proof. intros Hc. exists [(c, e)]. split; [done |]. by repeat constructor. Qed.

Lemma quiet_invoke {A} c (op : W → result A * W) :
  quiet_call c → quiet_run (invoke c op).
Proof.
  intros Hc st. unfold invoke. destruct (op (world st)) as [r w].
  by apply quiet_record.
Qed.

Lemma quiet_on_files c op f :
  quiet_call c → quiet_run (@on_files W c op f).
Proof.
  intros Hc st. unfold on_files.
  destruct (op (files st) (world st)); eexists [(c, _)];
    (split; [done |]); by repeat constructor.
Qed.

Lemma quiet_file_write file_name text :
  quiet_run (file_write aws file_name text).
Proof.
  intros st. unfold file_write.
  destruct (os_write aws (files st) file_name text (world st));
    exists []; by rewrite app_nil_r.
Qed.

Lemma quiet_for_each {A} (xs : list A) (body : A → M W unit) :
  (∀ x, quiet_run (body x)) → quiet_run (for_each xs body).
Proof.
  intros Hb. induction xs as [|x xs IH]; cbn [for_each].
  - apply quiet_ret.
  - apply quiet_bind; [apply Hb | by intros _].
Qed.

Lemma quiet_is_bucket_exists bucket : quiet_run (is_bucket_exists aws bucket).
Proof.
  unfold is_bucket_exists, int_code, logger_warning, logger_info.
  unfold mbind, M_bind, mret, M_ret.
  apply quiet_bind; [| intros [? ?]; apply quiet_ret].
  apply quiet_try.
  - apply quiet_bind; [by apply quiet_invoke | intros; apply quiet_ret].
  - intros ce. apply quiet_bind.
    + destruct (Py.int (Code ce)); [apply quiet_ret | apply quiet_raise].
    + intros n. destruct (n =? 403); [| destruct (n =? 404)];
        try apply quiet_ret;
        (apply quiet_bind; [apply quiet_emit | intros; apply quiet_ret]).
Qed.

Lemma quiet_create_not_exists_bucket bucket :
  quiet_run (create_not_exists_bucket aws bucket).
Proof.
  unfold create_not_exists_bucket, logger_warning.
  unfold mbind, M_bind, mret, M_ret.
  apply quiet_try; [| intros; apply quiet_emit].
  apply quiet_bind; [apply quiet_is_bucket_exists |].
  intros [|]; cbn; [apply quiet_ret | by apply quiet_invoke].
Qed.

Lemma quiet_generate_file_name : quiet_run (generate_file_name aws).
Proof.
  unfold generate_file_name. unfold mbind, M_bind, mret, M_ret.
  apply quiet_bind; [by apply quiet_invoke | intros; apply quiet_ret].
Qed.

Lemma quiet_instance_record instance :
  quiet_run (instance_record aws instance).
Proof.
  unfold instance_record, get_ec2_name. unfold mbind, M_bind, mret, M_ret.
  apply quiet_bind.
  - destruct (tags instance); [apply quiet_ret | apply quiet_raise].
  - intros found.
    apply quiet_bind; [by apply quiet_invoke | intros; apply quiet_ret].
Qed.

Lemma quiet_for_instances instances failure acc st :
  quiet_from st (for_instances aws instances failure acc st).2.
Proof.
  revert acc st. induction instances as [|instance rest IH]; intros acc st.
  - apply quiet_from_refl.
  - cbn [for_instances].
    pose proof (quiet_instance_record instance st) as Hq.
    destruct (instance_record aws instance st) as [[r|e] st1]; [| exact Hq].
    exact (quiet_from_trans _ _ _ Hq (IH _ st1)).
Qed.

Lemma quiet_get_ec2_list : quiet_run (get_ec2_list aws).
Proof.
  intros st. unfold get_ec2_list.
  destruct (instances_filter aws filters (world st)) as [l w].
  pose proof (quiet_for_instances (yielded l) (failure l) []
                (record (InstancesFilter filters) (failure l) w st)) as Hq.
  assert (quiet_from st (record (InstancesFilter filters) (failure l) w st))
    as H0 by by apply quiet_record.
  pose proof (quiet_from_trans _ _ _ H0 Hq) as H1.
  destruct (for_instances aws (yielded l) (failure l) [] _)
    as [[out [[ce| | | |]|]] st1]; exact H1.
Qed.

Lemma quiet_write_local_file file_name records :
  quiet_run (write_local_file aws file_name records).
Proof.
  unfold write_local_file. unfold mbind, M_bind.
  apply quiet_bind; [by apply quiet_on_files | intros _].
  apply quiet_for_each. intros r. unfold write_record, getitem.
  unfold mbind, M_bind, mret, M_ret.
  apply quiet_bind;
    [destruct (r !! Name); [apply quiet_ret | apply quiet_raise] |].
  intros c_name. apply quiet_bind;
    [destruct (r !! Ami); [apply quiet_ret | apply quiet_raise] |].
  intros c_ami. apply quiet_file_write.
Qed.

Lemma quiet_prepare region : quiet_run (prepare aws region).
Proof.
  unfold prepare, dict_getitem. unfold mbind, M_bind, mret, M_ret.
  repeat first
    [ apply quiet_create_not_exists_bucket
    | apply quiet_generate_file_name
    | apply quiet_get_ec2_list
    | apply quiet_write_local_file
    | apply quiet_ret
    | apply quiet_invoke; exact I
    | apply quiet_bind; [| intros ?] ].
  match goal with |- quiet_run (match ?x with _ => _ end) => destruct x end;
    [apply quiet_ret | apply quiet_raise].
Qed.

Lemma quiet_no_upload evs f b k e :
  Forall quiet evs → (UploadFile f b k, e) ∉ evs.
Proof.
  intros Hq Hin. rewrite Forall_forall in Hq. exact (Hq _ Hin).
Qed.

Lemma quiet_no_remove evs ev p :
  Forall quiet evs → ev ∈ evs → ev.1 ≠ OsRemove p.
Proof.
  intros Hq Hin He. rewrite Forall_forall in Hq.
  specialize (Hq _ Hin). unfold quiet in Hq. by rewrite He in Hq.
Qed.

(** *** The report file exists once it has been written *)

Lemma ensures_bind {A B} (m : M W A) (k : A → M W B) Q :
  (∀ a, ensures (k a) Q) → ensures (Run.bind m k) Q.
Proof.
  intros Hk st b st'. unfold Run.bind.
  destruct (m st) as [[a|e] st1]; [apply Hk | done].
Qed.

Lemma prepare_leaves_report region :
  ensures (prepare aws region)
    (λ names st, is_Some (files st !! names.1) ).
Proof.
  unfold prepare. unfold mbind, M_bind, mret, M_ret.
  do 9 (apply ensures_bind; intros ?).
  apply ensures_bind; intros csv_f_name.
  apply ensures_bind; intros records.
  intros st names st' H. unfold Run.bind in H.
  destruct (write_local_file aws csv_f_name records st) as [[[]|e] st1]
    eqn:Hw; [| done].
  apply write_local_file_Ok in Hw as [_ ->].
  unfold invoke in H. cbn in H.
  destruct (boto3_client aws "s3" None (world st)) as [[[]|e] w];
    [| done].
  cbn in H. injection H as <- <-. cbn. by rewrite lookup_insert_eq.
Qed.

(** *** The upload and the cleanup *)

Lemma s3_transfer_raises (res : result unit) (e : exn) :
  s3_transfer res = Raise e → is_ClientError e = false.
Proof. destruct res as [[]|[]]; cbn; intros [= <-]; done. Qed.

Lemma s3_transfer_Ok (res : result unit) (a : unit) :
  s3_transfer res = Ok a → res = Ok tt.
Proof. destruct res as [[]|[]]; cbn; by intros [= ]. Qed.

(** The four ways [finish] can go: the upload raises; the file is
    reported gone; it is removed; its removal raises. *)
Lemma finish_cases f b (st : state W) r st' :
  finish aws (f, b) st = (r, st') →
  ∃ res w,
    upload_file aws (files st) f b f (world st) = (res, w)
    ∧ world st' = w ∧ log st' = log st
    ∧ ((∃ e, s3_transfer res = Raise e ∧ r = Raise e
             ∧ trace st' = trace st ++ [(UploadFile f b f, Some e)]
             ∧ files st' = files st)
       ∨ (res = Ok tt ∧ os_path_exists aws (files st) f w = false
          ∧ r = Ok tt
          ∧ trace st' = trace st ++ [(UploadFile f b f, None);
                                     (OsPathExists f, None)]
          ∧ files st' = files st)
       ∨ (res = Ok tt ∧ os_path_exists aws (files st) f w = true
          ∧ os_remove aws (files st) f w = None
          ∧ r = Ok tt
          ∧ trace st' = trace st ++ [(UploadFile f b f, None);
                                     (OsPathExists f, None);
                                     (OsRemove f, None)]
          ∧ files st' = delete f (files st))
       ∨ (∃ cls, res = Ok tt ∧ os_path_exists aws (files st) f w = true
                 ∧ os_remove aws (files st) f w = Some cls
                 ∧ r = Raise (OtherError cls)
                 ∧ trace st' = trace st
                               ++ [(UploadFile f b f, None);
                                   (OsPathExists f, None);
                                   (OsRemove f, Some (OtherError cls))]
                 ∧ files st' = files st)).
Proof.
  unfold finish. unfold mbind, M_bind, mret, M_ret.
  unfold Run.bind, Run.ret, get_files, invoke, ask, on_files, record.
  destruct (upload_file aws (files st) f b f (world st)) as [res w].
  intros H. exists res, w. split; [done |].
  destruct (s3_transfer res) as [[]|e] eqn:Hres; cbn in H.
  - apply s3_transfer_Ok in Hres as ->.
    destruct (os_path_exists aws (files st) f w) eqn:Hex; cbn in H.
    + destruct (os_remove aws (files st) f w) as [cls|] eqn:Hrm;
        injection H as <- <-; cbn; rewrite <- !app_assoc;
        (split; [done |]); (split; [done |]); right; right.
      * right. by exists cls.
      * by left.
    + injection H as <- <-. cbn. rewrite <- !app_assoc.
      split; [done |]. split; [done |]. right. by left.
  - injection H as <- <-. cbn. split; [done |]. split; [done |].
    left. by exists e.
Qed.

Lemma finish_no_ClientError names (st : state W) ce st' :
  finish aws names st ≠ (Raise (ClientError ce), st').
Proof.
  destruct names as [f b]. intros H.
  apply finish_cases in H
    as (res & w & _ & _ & _ & [(e & Hres & [= <-] & _)|[H|[H|H]]]).
  - by apply s3_transfer_raises in Hres.
  - by destruct H as (_ & _ & ? & _).
  - by destruct H as (_ & _ & _ & ? & _).
  - by destruct H as (cls & _ & _ & _ & ? & _).
Qed.

(** A run either stops before the upload, having made quiet calls only,
    or reaches it with the report written, and then ends as [finish]
    does. *)
Lemma run_split region (st : state W) r st' :
  create_running_ec2_list aws region st = (r, st') →
  (∃ evs0, trace st' = trace st ++ evs0 ∧ Forall quiet evs0)
  ∨ (∃ f b st1 evs0,
       prepare aws region st = (Ok (f, b), st1)
       ∧ trace st1 = trace st ++ evs0 ∧ Forall quiet evs0
       ∧ is_Some (files st1 !! f)
       ∧ finish aws (f, b) st1 = (r, st')).
Proof.
  rewrite create_running_ec2_list_halves.
  unfold try_except, Run.bind.
  destruct (quiet_prepare region st) as (evs0 & Ht0 & Hq0).
  pose proof (prepare_leaves_report region st) as Hfile.
  destruct (prepare aws region st) as [[[f b]|e] st1]; cbn in Ht0.
  - specialize (Hfile _ _ eq_refl). cbn in Hfile. intros H. right.
    exists f, b, st1, evs0. repeat split; try done.
    pose proof (finish_no_ClientError (f, b) st1) as Hn.
    destruct (finish aws (f, b) st1) as [[[]|e] st2]; [done |].
    destruct e as [ce| | | |]; try done. by destruct (Hn ce st2).
  - intros H. left. exists evs0. split; [| done].
    destruct e; injection H as _ <-; by cbn.
Qed.

End Command.

Example upload_failure_leaves_report :
  files failed_run.2 !! report_name
  = Some (fstring [row_of web_1_record; row_of untagged_record]).
Proof. vm_compute. reflexivity. Qed.

Example end_to_end_run :
  let run := create_running_ec2_list (Script.provider Script.end_to_end)
               "us-east-1" Script.start in
  run.1 = Ok tt
  ∧ creations (trace run.2) = [bucket_name]
  ∧ last (trace run.2) = Some (OsRemove report_name, None)
  ∧ files run.2 = ∅.
Proof. vm_compute. repeat split. Qed.

(** * Further properties of the script *)

(** ** The bucket resolver, beyond the creation calls *)
Section ResolverEffects.
Context {W : Type} (aws : Provider W).

(** Whatever the probe answers, [is_bucket_exists] makes that one call and
    leaves the local files alone. *)
Lemma is_bucket_exists_effect bucket st :
  ∃ probe w,
    head_bucket aws bucket (world st) = (probe, w)
    ∧ trace (is_bucket_exists aws bucket st).2
      = trace st ++ [(HeadBucket bucket, raised probe)]
    ∧ files (is_bucket_exists aws bucket st).2 = files st
    ∧ world (is_bucket_exists aws bucket st).2 = w.
Proof.
  destruct (head_bucket aws bucket (world st)) as [probe w] eqn:H.
  exists probe, w. split; [done |].
  unfold is_bucket_exists, int_code, logger_warning, logger_info.
  unfold_run. rewrite H.
  destruct probe as [[]|[ce| | | |]]; cbn; try done.
  destruct (Py.int (Code ce)) as [n|]; cbn; [| done].
  destruct (n =? 403); [done |]. by destruct (n =? 404).
Qed.

Lemma is_bucket_exists_result bucket st :
  (is_bucket_exists aws bucket st).1 = Ok true
  ↔ (head_bucket aws bucket (world st)).1 = Ok tt.
Proof.
  unfold is_bucket_exists, int_code, logger_warning, logger_info.
  unfold_run.
  destruct (head_bucket aws bucket (world st)) as [[[]|[ce| | | |]] w];
    cbn; try done.
  destruct (Py.int (Code ce)) as [n|]; cbn; [| done].
  destruct (n =? 403); [done |]. by destruct (n =? 404).
Qed.

Lemma is_bucket_exists_raises bucket st e :
  (is_bucket_exists aws bucket st).1 = Raise e →
  (∃ ce w, head_bucket aws bucket (world st) = (Raise (ClientError ce), w)
           ∧ Py.int (Code ce) = None ∧ e = ValueError (Code ce))
  ∨ (∃ w, head_bucket aws bucket (world st) = (Raise e, w)
          ∧ is_ClientError e = false).
Proof.
  unfold is_bucket_exists, int_code, logger_warning, logger_info.
  unfold_run.
  destruct (head_bucket aws bucket (world st)) as [[[]|[ce| | | |]] w];
    cbn; try done;
    try (intros [= <-]; right; by eexists).
  destruct (Py.int (Code ce)) as [n|] eqn:Hc; cbn.
  - destruct (n =? 403); [done |]. by destruct (n =? 404).
  - intros [= <-]. left. by exists ce, w.
Qed.

End ResolverEffects.

(** X1. [is_bucket_exists] answers [True] exactly when [head_bucket]
    returned without raising.  Whatever the outcome it makes that single
    call and changes no local file, and when the probe succeeds it logs
    nothing. *)
Theorem is_bucket_exists_true_iff_probe_ok {W} (aws : Provider W)
    (bucket : string) (st : state W) :
  let after := is_bucket_exists aws bucket st in
  let probe := (head_bucket aws bucket (world st)).1 in
  (after.1 = Ok true ↔ probe = Ok tt)
  ∧ trace after.2 = trace st ++ [(HeadBucket bucket, raised probe)]
  ∧ files after.2 = files st
  ∧ (probe = Ok tt → log after.2 = log st).
Proof.
  cbn zeta. split; [apply is_bucket_exists_result |].
  destruct (is_bucket_exists_effect aws bucket st)
    as (probe & w & H & Ht & Hf & _).
  rewrite H. cbn [fst]. split; [done |]. split; [done |].
  intros ->. by rewrite (is_bucket_exists_accessible aws bucket st w H).
Qed.

(** X2. An exception that leaves [create_not_exists_bucket] is never a
    [ClientError], and it has one of three origins: the [ValueError] of
    [int] on a probe error whose code is not an integer, an exception of
    [head_bucket] that is not a [ClientError], or an exception of
    [create_bucket] that is not a [ClientError]. *)
Theorem create_not_exists_bucket_raises {W} (aws : Provider W)
    (bucket : string) (st : state W) (e : exn) :
  (create_not_exists_bucket aws bucket st).1 = Raise e →
  is_ClientError e = false
  ∧ ((∃ ce w,
        head_bucket aws bucket (world st) = (Raise (ClientError ce), w)
        ∧ Py.int (Code ce) = None ∧ e = ValueError (Code ce))
     ∨ (∃ w, head_bucket aws bucket (world st) = (Raise e, w))
     ∨ (∃ st1 w,
          is_bucket_exists aws bucket st = (Ok false, st1)
          ∧ create_bucket aws bucket (world st1) = (Raise e, w))).
Proof.
  intros H.
  destruct (is_bucket_exists aws bucket st) as [[found|e'] st1] eqn:Hp.
  - destruct found.
    + unfold create_not_exists_bucket in H. unfold_run.
      by rewrite Hp in H.
    + rewrite (create_after_probe aws bucket st st1 Hp) in H.
      destruct (create_bucket aws bucket (world st1)) as [[[]|e1] w] eqn:Hc;
        [done |].
      destruct e1; try done; injection H as <-;
        (split; [done |]); right; right; by exists st1, w.
  - assert (e' = e) as ->.
    { unfold create_not_exists_bucket in H. unfold_run. rewrite Hp in H.
      pose proof (is_bucket_exists_raises aws bucket st e') as Hr.
      rewrite Hp in Hr.
      destruct (Hr eq_refl) as [(ce & w & _ & _ & ->)|(w & _ & Hn)];
        [by injection H |].
      destruct e'; try done; by injection H. }
    pose proof (is_bucket_exists_raises aws bucket st e) as Hr.
    rewrite Hp in Hr.
    destruct (Hr eq_refl) as [(ce & w & Hh & Hc & ->)|(w & Hh & Hn)].
    + split; [done |]. left. by exists ce, w.
    + split; [done |]. right; left. by exists w.
Qed.

Lemma create_not_exists_bucket_raises_witness :
  (create_not_exists_bucket (Script.provider symbolic_code) "reports"
     Script.start).1 = Raise (ValueError "AccessDenied")
  ∧ is_ClientError (ValueError "AccessDenied") = false.
Proof.
  split; [reflexivity |].
  exact (proj1 (create_not_exists_bucket_raises
                  (Script.provider symbolic_code) "reports" Script.start
                  (ValueError "AccessDenied") eq_refl)).
Defined.

(** X3. [create_not_exists_bucket] probes first and then makes at most
    one more call, the creation of the very bucket it probed; it changes
    no local file; and when the probe succeeds the probe is its only
    effect, so a rerun against an accessible bucket creates and logs
    nothing. *)
Theorem create_not_exists_bucket_calls {W} (aws : Provider W)
    (bucket : string) (st : state W) :
  let after := create_not_exists_bucket aws bucket st in
  ∃ probe w tl,
    head_bucket aws bucket (world st) = (probe, w)
    ∧ trace after.2 = trace st ++ (HeadBucket bucket, raised probe) :: tl
    ∧ (tl = [] ∨ ∃ outcome, tl = [(CreateBucket bucket, outcome)])
    ∧ files after.2 = files st
    ∧ (probe = Ok tt → after = (Ok tt, probed bucket None w st)).
Proof.
  cbn zeta.
  destruct (is_bucket_exists_effect aws bucket st)
    as (probe & w & H & Ht & Hf & Hw).
  exists probe, w.
  destruct (is_bucket_exists aws bucket st) as [[found|e] st1] eqn:Hp;
    cbn in Ht, Hf, Hw.
  - destruct found.
    + assert (probe = Ok tt) as ->.
      { pose proof (is_bucket_exists_result aws bucket st) as Hr.
        rewrite Hp, H in Hr. cbn in Hr. by apply Hr. }
      exists []. split; [done |].
      rewrite (is_bucket_exists_accessible aws bucket st w H) in Hp.
      injection Hp as <-.
      unfold create_not_exists_bucket. unfold_run.
      rewrite (is_bucket_exists_accessible aws bucket st w H). cbn.
      repeat split; auto.
    + assert (probe ≠ Ok tt) as Hne.
      { intros ->.
        rewrite (is_bucket_exists_accessible aws bucket st w H) in Hp.
        discriminate. }
      rewrite (create_after_probe aws bucket st st1 Hp).
      destruct (create_bucket aws bucket (world st1)) as [[[]|e1] w1];
        [| destruct e1];
        eexists [(CreateBucket bucket, _)]; cbn; rewrite Ht, <- app_assoc;
        (split; [done |]); (split; [reflexivity |]);
        (split; [right; by eexists |]); (split; [done |]); done.
  - assert (probe ≠ Ok tt) as Hne.
    { intros ->.
      rewrite (is_bucket_exists_accessible aws bucket st w H) in Hp.
      discriminate. }
    exists []. split; [done |].
    unfold create_not_exists_bucket. unfold_run. rewrite Hp.
    destruct e; cbn; repeat split; auto; try done.
Qed.

(** ** The two name helpers *)

Lemma first_Name_None_inv (ts : list Tag) :
  first_Name ts = None → ∀ t, t ∈ ts → Key t ≠ "Name".
Proof.
  induction ts as [|u ts IH]; intros H t Ht; [by inversion Ht |].
  cbn in H. destruct (String.eqb_spec (Key u) "Name") as [|Hne]; [done |].
  apply elem_of_cons in Ht as [->|Ht]; [done | by apply IH].
Qed.

Lemma first_Name_Some_inv (ts : list Tag) (v : string) :
  first_Name ts = Some v →
  ∃ pre t post,
    ts = pre ++ t :: post ∧ Key t = "Name" ∧ Value t = v
    ∧ ∀ u, u ∈ pre → Key u ≠ "Name".
Proof.
  induction ts as [|u ts IH]; intros H; [done |].
  cbn in H. destruct (String.eqb_spec (Key u) "Name") as [He|Hne].
  - injection H as <-. exists [], u, ts. repeat split; [done |].
    intros t Ht. by inversion Ht.
  - destruct (IH H) as (pre & t & post & -> & Hk & Hv & Hpre).
    exists (u :: pre), t, post. repeat split; [done.. |].
    intros t' Ht'. apply elem_of_cons in Ht' as [->|Ht']; [done |].
    by apply Hpre.
Qed.

(** X4. On an instance with a tag list [get_ec2_name] leaves the state
    alone, returns [None] exactly when no tag has the key [Name], and
    returns a value exactly when it is the value of the first tag, in
    list order, whose key is [Name]. *)
Theorem get_ec2_name_first_match {W} (instance : Instance)
    (ts : list Tag) (st : state W) :
  tags instance = Some ts →
  ∃ found,
    get_ec2_name instance st = (Ok found, st)
    ∧ (found = None ↔ ∀ t, t ∈ ts → Key t ≠ "Name")
    ∧ ∀ v, found = Some v
           ↔ ∃ pre t post,
               ts = pre ++ t :: post ∧ Key t = "Name" ∧ Value t = v
               ∧ ∀ u, u ∈ pre → Key u ≠ "Name".
Proof.
  intros Ht. exists (first_Name ts).
  split; [unfold get_ec2_name; by rewrite Ht |]. split.
  - split; [apply first_Name_None_inv | apply first_Name_absent].
  - intros v. split; [apply first_Name_Some_inv |].
    intros (pre & t & post & -> & Hk & <- & Hpre).
    by apply first_Name_first.
Qed.

Lemma get_ec2_name_first_match_witness :
  tags Script.web_1 = Some [mkTag "env" "prod"; mkTag "Name" "web-1"]
  ∧ ∃ found,
      get_ec2_name Script.web_1 Script.start = (Ok found, Script.start)
      ∧ (found = None
         ↔ ∀ t, t ∈ [mkTag "env" "prod"; mkTag "Name" "web-1"] →
                Key t ≠ "Name")
      ∧ ∀ v, found = Some v
             ↔ ∃ pre t post,
                 [mkTag "env" "prod"; mkTag "Name" "web-1"]
                 = pre ++ t :: post
                 ∧ Key t = "Name" ∧ Value t = v
                 ∧ ∀ u, u ∈ pre → Key u ≠ "Name".
Proof.
  split; [reflexivity |].
  exact (get_ec2_name_first_match Script.web_1
           [mkTag "env" "prod"; mkTag "Name" "web-1"] Script.start eq_refl).
Defined.

Lemma replace_length (old new : ascii) (s : string) :
  String.length (Py.replace old new s) = String.length s.
Proof. induction s as [|c s IH]; cbn; [done | by rewrite IH]. Qed.

Lemma replace_get (old new : ascii) (s : string) (i : nat) :
  String.get i (Py.replace old new s)
  = (λ c : ascii, if Ascii.eqb c old then new else c) <$> String.get i s.
Proof.
  revert i. induction s as [|c s IH]; intros i; [done |].
  destruct i as [|i]; cbn; [done | apply IH].
Qed.

(** X5. [generate_file_name] reads the clock once and returns
    [ec2-instances-<stem>.csv], where the stem is the text of the
    timestamp with every full stop replaced by a hyphen and every other
    character kept in place: the stem has the length of the timestamp
    text and contains no full stop. *)
Theorem generate_file_name_stem {W} (aws : Provider W) (st : state W) :
  let stamp := (now_timestamp aws (world st)).1 in
  let after := generate_file_name aws st in
  ∃ stem,
    after.1 = Ok ("ec2-instances-" +:+ stem +:+ ".csv")
    ∧ String.length stem = String.length stamp
    ∧ (∀ i, String.get i stem ≠ Some "."%char)
    ∧ (∀ i c, String.get i stamp = Some c →
         String.get i stem = Some (if Ascii.eqb c "." then "-"%char else c))
    ∧ trace after.2 = trace st ++ [(DatetimeNow, None)]
    ∧ files after.2 = files st
    ∧ log after.2 = log st.
Proof.
  cbn zeta. unfold generate_file_name. unfold_run.
  destruct (now_timestamp aws (world st)) as [stamp w]. cbn.
  exists (Py.replace "." "-" stamp).
  split; [unfold fstring; cbn; by rewrite append_empty_r |].
  split; [apply replace_length |]. split; [| split; [| done]].
  - intros i. rewrite replace_get.
    destruct (String.get i stamp) as [c|]; cbn; [| done].
    destruct (Ascii.eqb_spec c "."); congruence.
  - intros i c Hc. by rewrite replace_get, Hc.
Qed.

Example file_name_of_timestamp :
  (generate_file_name (Script.provider Script.end_to_end) Script.start).1
  = Ok "ec2-instances-1700000000-123456.csv".
Proof. reflexivity. Qed.

(** ** The instance lister, beyond the fields of a record *)
Section ListerEffects.
Context {W : Type} (aws : Provider W).

(** Turning instances into records logs nothing and leaves the local
    files alone; there is one record per instance. *)
Lemma processed_frame pre (st : state W) recs st1 :
  processed aws pre st recs st1 →
  length recs = length pre ∧ log st1 = log st ∧ files st1 = files st.
Proof.
  induction 1 as [st|instance rest st r st1 recs st2 Hr _ IH]; [done |].
  destruct IH as (Hlen & Hlog & Hfiles).
  destruct (tags instance) as [ts|] eqn:Ht;
    [| by rewrite (instance_record_tagless aws instance st Ht) in Hr].
  rewrite (instance_record_run aws instance ts st Ht) in Hr.
  destruct (image_load aws (image_id instance) (world st)) as [[image|e] w];
    [| done].
  injection Hr as _ <-. cbn in *. by rewrite Hlen.
Qed.

(** The calls of the loop: one image lookup per instance it gets to, in
    the order of the listing. *)
Lemma for_instances_calls instances failure acc (st : state W) :
  let after := for_instances aws instances failure acc st in
  ∃ k evs,
    (k ≤ length instances)%nat
    ∧ trace after.2 = trace st ++ evs
    ∧ evs.*1 = (λ i, ImageLoad (image_id i)) <$> take k instances
    ∧ files after.2 = files st
    ∧ (length after.1.1 ≤ length acc + k)%nat.
Proof.
  cbn zeta. revert acc st.
  induction instances as [|instance rest IH]; intros acc st.
  - exists 0%nat, []. cbn. rewrite app_nil_r. repeat split; auto; lia.
  - cbn [for_instances].
    destruct (tags instance) as [ts|] eqn:Ht.
    + rewrite (instance_record_run aws instance ts st Ht).
      destruct (image_load aws (image_id instance) (world st))
        as [[image|e] w].
      * match goal with
        | |- context [for_instances aws rest failure ?a ?s] =>
            destruct (IH a s) as (k & evs & Hk & Htr & Hev & Hf & Hlen)
        end.
        exists (S k), ((ImageLoad (image_id instance), None) :: evs).
        rewrite Htr, Hf. cbn. rewrite <- app_assoc, Hev.
        rewrite length_app in Hlen. cbn in Hlen.
        repeat split; auto; lia.
      * exists 1%nat, [(ImageLoad (image_id instance), Some e)]. cbn.
        rewrite take_0. repeat split; auto; lia.
    + rewrite (instance_record_tagless aws instance st Ht).
      exists 0%nat, []. cbn. rewrite app_nil_r. repeat split; auto; lia.
Qed.

End ListerEffects.

(** X6. When the listing ends without an exception and every instance it
    yielded is turned into a record, [get_ec2_list] returns exactly those
    records, one per instance and in the order of the listing, logs
    nothing and changes no local file. *)
Theorem get_ec2_list_complete {W} (aws : Provider W) (st : state W)
    (l : listing) (w : W) (recs : list instance_info) (st1 : state W) :
  instances_filter aws filters (world st) = (l, w) →
  failure l = None →
  processed aws (yielded l) (listed l w st) recs st1 →
  get_ec2_list aws st = (Ok recs, st1)
  ∧ length recs = length (yielded l)
  ∧ log st1 = log st
  ∧ files st1 = files st.
Proof.
  intros Hl Hf Hp.
  destruct (processed_frame aws _ _ _ _ Hp) as (Hlen & Hlog & Hfiles).
  split; [| by repeat split].
  rewrite (get_ec2_list_run aws st l w (yielded l) [] recs st1 Hl);
    [| by rewrite app_nil_r | done].
  cbn [for_instances]. by rewrite Hf.
Qed.

Lemma get_ec2_list_complete_witness :
  failure (Script.instances Script.end_to_end) = None
  ∧ processed (Script.provider Script.end_to_end)
      [Script.web_1; Script.untagged]
      (listed (Script.instances Script.end_to_end) tt Script.start)
      [web_1_record; untagged_record] end_to_end_listed
  ∧ get_ec2_list (Script.provider Script.end_to_end) Script.start
    = (Ok [web_1_record; untagged_record], end_to_end_listed).
Proof.
  assert (processed (Script.provider Script.end_to_end)
            [Script.web_1; Script.untagged]
            (listed (Script.instances Script.end_to_end) tt Script.start)
            [web_1_record; untagged_record] end_to_end_listed) as Hp.
  { apply (processed_cons _ Script.web_1 [Script.untagged] _ web_1_record
             (after_web_1 Script.end_to_end) [untagged_record] _);
      [reflexivity |].
    apply (processed_cons _ Script.untagged [] _ untagged_record
             end_to_end_listed [] _);
      [reflexivity | apply processed_nil]. }
  split; [reflexivity |]. split; [exact Hp |].
  exact (proj1 (get_ec2_list_complete (Script.provider Script.end_to_end)
                  Script.start (Script.instances Script.end_to_end) tt
                  [web_1_record; untagged_record] end_to_end_listed
                  eq_refl eq_refl Hp)).
Defined.

Lemma image_lookups_only (evs : list event) (instances : list Instance) :
  evs.*1 = (λ i, ImageLoad (image_id i)) <$> instances →
  Forall (λ ev, match ev.1 with
                | InstancesFilter fl => fl = filters
                | ImageLoad _ => True
                | _ => False
                end) evs
  ∧ omap (λ ev, match ev.1 with ImageLoad id => Some id | _ => None end) evs
    = image_id <$> instances.
Proof.
  revert instances. induction evs as [|[c o] evs IH]; intros [|i instances];
    cbn; try done.
  intros [= -> H]. destruct (IH _ H) as [Hf Ho]. cbn.
  split; [by constructor | by rewrite Ho].
Qed.

(** X7. The calls of [get_ec2_list] are listing requests and image
    lookups only.  Every listing request carries the filter
    [instance-state-name = running].  The image lookups are made in the
    order of the listing, at most one per yielded instance: the image
    ids looked up, in order, are those of the first [k] yielded
    instances.  Every record returned cost one lookup, and no local file
    is changed. *)
Theorem get_ec2_list_calls {W} (aws : Provider W) (st : state W) :
  let l := (instances_filter aws filters (world st)).1 in
  let after := get_ec2_list aws st in
  filters = [mkFilter "instance-state-name" ["running"]]
  ∧ ∃ k evs,
      (k ≤ length (yielded l))%nat
      ∧ trace after.2 = trace st ++ evs
      ∧ Forall (λ ev, match ev.1 with
                      | InstancesFilter fl => fl = filters
                      | ImageLoad _ => True
                      | _ => False
                      end) evs
      ∧ omap (λ ev, match ev.1 with
                    | ImageLoad id => Some id
                    | _ => None
                    end) evs
        = image_id <$> take k (yielded l)
      ∧ files after.2 = files st
      ∧ ∀ recs, after.1 = Ok recs → (length recs ≤ k)%nat.
Proof.
  cbn zeta. split; [reflexivity |]. unfold get_ec2_list.
  destruct (instances_filter aws filters (world st)) as [l w]. cbn [fst].
  destruct (for_instances_calls aws (yielded l) (failure l) []
              (record (InstancesFilter filters) (failure l) w st))
    as (k & evs & Hk & Htr & Hev & Hf & Hlen).
  apply image_lookups_only in Hev as [Hall Hids].
  exists k, ((InstancesFilter filters, failure l) :: evs).
  destruct (for_instances aws (yielded l) (failure l) [] _)
    as [[out raised_] st1].
  cbn in Htr, Hf, Hlen. rewrite <- app_assoc in Htr. cbn in Htr.
  assert (Forall (λ ev, match ev.1 with
                        | InstancesFilter fl => fl = filters
                        | ImageLoad _ => True
                        | _ => False
                        end) ((InstancesFilter filters, failure l) :: evs))
    as Hall' by by constructor.
  destruct raised_ as [[ce| | | |]|]; unfold logger_warning; unfold_run; cbn;
    repeat split; auto; try done; by intros recs [= <-].
Qed.

(** ** The report writer, beyond well-formed records *)
Section WriterEffects.
Context {W : Type} (aws : Provider W).

Lemma for_each_app {A} (xs ys : list A) (body : A → M W unit) st :
  for_each (xs ++ ys) body st
  = Run.bind (for_each xs body) (λ _, for_each ys body) st.
Proof.
  revert st. induction xs as [|x xs IH]; intros st; [done |].
  cbn [app for_each]. unfold Run.bind.
  destruct (body x st) as [[[]|e] st1]; [| done].
  rewrite IH. reflexivity.
Qed.

Lemma write_record_missing file_name (bad : instance_info) (st : state W) :
  bad !! Name = None ∨ bad !! Ami = None →
  write_record aws file_name bad st
  = (Raise (KeyError (RunInfo_repr
                        (if bad !! Name is None then Name else Ami))), st).
Proof.
  intros H. unfold write_record, getitem. unfold_run.
  destruct (bad !! Name) as [n|]; [| done].
  destruct H as [H|H]; [done |]. by rewrite H.
Qed.

(** A row write changes nothing but the text of the file under
    [file_name]. *)
Lemma write_record_frame file_name (r : instance_info) (st : state W) :
  let after := (write_record aws file_name r st).2 in
  world after = world st ∧ log after = log st ∧ trace after = trace st
  ∧ ∀ p, p ≠ file_name → files after !! p = files st !! p.
Proof.
  cbn zeta. unfold write_record, getitem, file_write. unfold_run.
  destruct (r !! Name); [| done]. destruct (r !! Ami); [| done]. cbn.
  destruct (os_write aws (files st) file_name _ (world st)); [done |]. cbn.
  repeat split. intros p Hp. by rewrite lookup_alter_ne.
Qed.

Lemma for_each_write_record_frame file_name (records : list instance_info)
    (st : state W) :
  let after := (for_each records (write_record aws file_name) st).2 in
  world after = world st ∧ log after = log st ∧ trace after = trace st
  ∧ ∀ p, p ≠ file_name → files after !! p = files st !! p.
Proof.
  cbn zeta. revert st. induction records as [|r records IH]; intros st;
    [done |].
  cbn [for_each]. unfold Run.bind.
  pose proof (write_record_frame file_name r st) as Hr. cbn zeta in Hr.
  destruct (write_record aws file_name r st) as [[[]|e] st1]; [| exact Hr].
  cbn in Hr. destruct Hr as (Hw & Hl & Ht & Hf).
  destruct (IH st1) as (Hw' & Hl' & Ht' & Hf').
  rewrite Hw', Hl', Ht', Hw, Hl, Ht. repeat split.
  intros p Hp. by rewrite Hf', Hf.
Qed.

(** On records that carry both columns, the loop of the writer can only
    raise what a row write raised. *)
Lemma for_each_write_record_raises file_name
    (records : list instance_info) :
  (∀ r, r ∈ records → is_Some (r !! Name) ∧ is_Some (r !! Ami)) →
  ∀ (st : state W) e st',
    for_each records (write_record aws file_name) st = (Raise e, st') →
    ∃ cls fs text,
      e = OtherError cls
      ∧ os_write aws fs file_name text (world st) = Some cls.
Proof.
  induction records as [|r records IH]; intros Hkeys st e st'; [done |].
  cbn [for_each]. unfold Run.bind.
  pose proof (write_record_frame file_name r st) as (Hw & _). revert Hw.
  destruct (write_record aws file_name r st) as [[[]|e1] st1] eqn:Hr.
  - cbn. intros Hw H.
    destruct (IH (λ r' Hr', Hkeys r' (list_elem_of_further _ _ _ Hr'))
                st1 e st' H) as (cls & fs & text & -> & Hos).
    exists cls, fs, text. by rewrite <- Hw.
  - intros _ [= <- <-].
    destruct (Hkeys r (list_elem_of_here _ _)) as [[n Hn] [a Ha]].
    unfold write_record, getitem, file_write in Hr. unfold_run.
    rewrite Hn, Ha in Hr. cbn in Hr.
    destruct (os_write aws (files st) file_name _ (world st)) as [cls|]
      eqn:Hos; [| done].
    injection Hr as <- _. by eexists cls, _, _.
Qed.

End WriterEffects.

(** X8. When a record lacks a column, [write_local_file], given a file
    that can be opened and written to, raises the [KeyError] of the first
    missing key, [RunInfo.Name] before [RunInfo.Ami], and leaves the file
    as written so far: opened anew and holding the rows of the records
    before the faulty one, exactly as if it had been given those records
    alone. *)
Theorem write_local_file_missing_column {W} (aws : Provider W)
    (st : state W) (file_name : string) (pre : list instance_info)
    (bad : instance_info) (post : list instance_info) :
  (∀ r, r ∈ pre → is_Some (r !! Name) ∧ is_Some (r !! Ami)) →
  bad !! Name = None ∨ bad !! Ami = None →
  writable aws file_name st →
  write_local_file aws file_name (pre ++ bad :: post) st
  = (Raise (KeyError (RunInfo_repr
                        (if bad !! Name is None then Name else Ami))),
     (write_local_file aws file_name pre st).2)
  ∧ (write_local_file aws file_name pre st).1 = Ok tt.
Proof.
  intros Hkeys Hbad Hw.
  rewrite (write_local_file_run aws file_name pre st Hkeys Hw).
  split; [| done]. destruct Hw as [Ho Hw].
  unfold write_local_file. unfold mbind, M_bind. unfold Run.bind at 1.
  unfold on_files at 1. rewrite Ho, for_each_app. unfold Run.bind.
  rewrite (for_each_write_record aws file_name pre Hkeys _ EmptyString);
    [| by cbn; rewrite lookup_insert_eq | exact Hw].
  cbn [for_each]. unfold Run.bind.
  rewrite (write_record_missing aws file_name bad _ Hbad).
  unfold with_files. cbn. by rewrite insert_insert_eq.
Qed.

Lemma write_local_file_missing_column_witness :
  (∀ r, r ∈ [web_1_record] → is_Some (r !! Name) ∧ is_Some (r !! Ami))
  ∧ (nameless_record !! Name = None ∨ nameless_record !! Ami = None)
  ∧ writable (Script.provider Script.end_to_end) "report.csv" Script.start
  ∧ write_local_file (Script.provider Script.end_to_end) "report.csv"
      ([web_1_record] ++ nameless_record :: [untagged_record]) Script.start
    = (Raise (KeyError "RunInfo.Name"),
       (write_local_file (Script.provider Script.end_to_end) "report.csv"
          [web_1_record] Script.start).2).
Proof.
  assert (∀ r, r ∈ [web_1_record] →
               is_Some (r !! Name) ∧ is_Some (r !! Ami)) as Hkeys.
  { intros r Hr. apply list_elem_of_singleton in Hr as ->.
    split; eexists; reflexivity. }
  assert (writable (Script.provider Script.end_to_end) "report.csv"
            Script.start) as Hw.
  { split; [reflexivity | intros fs text; reflexivity]. }
  split; [exact Hkeys |]. split; [left; reflexivity |].
  split; [exact Hw |].
  exact (proj1 (write_local_file_missing_column
                  (Script.provider Script.end_to_end) Script.start
                  "report.csv" [web_1_record] nameless_record
                  [untagged_record] Hkeys (or_introl eq_refl) Hw)).
Defined.

(** X10. Whatever the records, and whether or not it raises,
    [write_local_file] makes the single call that opens its file, with
    the outcome the operating system gives it, logs nothing, and changes
    no local file other than the one it was given. *)
Theorem write_local_file_touches_one_file {W} (aws : Provider W)
    (st : state W) (file_name : string) (records : list instance_info) :
  let after := (write_local_file aws file_name records st).2 in
  trace after
  = trace st
    ++ [(Open file_name,
         OtherError <$> os_open aws (files st) file_name (world st))]
  ∧ log after = log st
  ∧ world after = world st
  ∧ ∀ p, p ≠ file_name → files after !! p = files st !! p.
Proof.
  cbn zeta. unfold write_local_file. unfold mbind, M_bind.
  unfold Run.bind, on_files.
  destruct (os_open aws (files st) file_name (world st)) as [cls|];
    [done |].
  match goal with
  | |- context [for_each records (write_record aws file_name) ?s] =>
      destruct (for_each_write_record_frame aws file_name records s)
        as (Hw & Hl & Ht & Hf)
  end.
  rewrite Ht, Hl, Hw. repeat split.
  intros p Hp. rewrite (Hf p Hp). cbn. by rewrite lookup_insert_ne.
Qed.

(** X11. The report writer accepts whatever the lister returns.  Given
    the records of a [get_ec2_list] call, [write_local_file] finds both
    columns in each of them: the only exceptions it can raise are those
    of [open] and of a row write, never a [KeyError]; and when the file
    can be opened and written to it returns, leaving in the file the rows
    of these records, in order: for each record the row [csv] writes for
    its name and its image description. *)
Theorem write_local_file_after_get_ec2_list {W} (aws : Provider W)
    (st : state W) (recs : list instance_info) (st1 : state W)
    (file_name : string) :
  get_ec2_list aws st = (Ok recs, st1) →
  (∀ e st2,
     write_local_file aws file_name recs st1 = (Raise e, st2) →
     ∃ cls,
       e = OtherError cls
       ∧ (os_open aws (files st1) file_name (world st1) = Some cls
          ∨ ∃ fs text, os_write aws fs file_name text (world st1) = Some cls))
  ∧ (writable aws file_name st1 →
     write_local_file aws file_name recs st1
     = (Ok tt,
        mkState (world st1) (log st1)
          (trace st1 ++ [(Open file_name, None)])
          (<[file_name :=
               fstring ((λ rec, writerow ";" dquote
                                  [default None (rec !! Name);
                                   default None (rec !! Ami)]) <$> recs)]>
             (files st1)))).
Proof.
  intros H. pose proof (get_ec2_list_columns aws st recs st1 H) as Hkeys.
  split.
  - intros e st2. unfold write_local_file. unfold mbind, M_bind.
    unfold Run.bind at 1. unfold on_files.
    destruct (os_open aws (files st1) file_name (world st1)) as [cls|].
    + intros [= <- _]. exists cls. by split; [| left].
    + intros Hr.
      apply (for_each_write_record_raises aws _ _ Hkeys) in Hr
        as (cls & fs & text & -> & Hos).
      exists cls. split; [done |]. right. by exists fs, text.
  - intros Hw. rewrite (write_local_file_run aws file_name recs st1 Hkeys Hw).
    do 4 f_equal. apply list_fmap_ext. intros i rec _. unfold row_of.
    by rewrite writerow_report_row.
Qed.

Lemma write_local_file_after_get_ec2_list_witness :
  get_ec2_list (Script.provider Script.end_to_end) Script.start
  = (Ok [web_1_record; untagged_record], end_to_end_listed)
  ∧ writable (Script.provider Script.end_to_end) "report.csv"
      end_to_end_listed
  ∧ write_local_file (Script.provider Script.end_to_end) "report.csv"
      [web_1_record; untagged_record] end_to_end_listed
    = (Ok tt,
       mkState (world end_to_end_listed) (log end_to_end_listed)
         (trace end_to_end_listed ++ [(Open "report.csv", None)])
         (<["report.csv" :=
              fstring ((λ rec, writerow ";" dquote
                                 [default None (rec !! Name);
                                  default None (rec !! Ami)])
                         <$> [web_1_record; untagged_record])]>
            (files end_to_end_listed))).
Proof.
  assert (writable (Script.provider Script.end_to_end) "report.csv"
            end_to_end_listed) as Hw.
  { split; [reflexivity | intros fs text; reflexivity]. }
  split; [reflexivity |]. split; [exact Hw |].
  exact (proj2 (write_local_file_after_get_ec2_list
                  (Script.provider Script.end_to_end) Script.start
                  [web_1_record; untagged_record] end_to_end_listed
                  "report.csv" eq_refl) Hw).
Defined.

(** *** The fields can be read back from a row *)

(** A quoted text followed by the closing quote and an other character
    determines the text and what follows. *)
Lemma double_quotes_closing (q d : ascii) (s1 s2 r1 r2 : string) :
  d ≠ q →
  double_quotes q s1 +:+ String q (String d r1)
  = double_quotes q s2 +:+ String q (String d r2) →
  s1 = s2 ∧ r1 = r2.
Proof.
  intros Hd. revert s2.
  induction s1 as [|c1 s1 IH]; intros [|c2 s2]; cbn [double_quotes].
  - intros [= ->]. done.
  - destruct (Ascii.eqb_spec c2 q) as [->|Hc]; rewrite !append_cons;
      intros [= ? ?]; congruence.
  - destruct (Ascii.eqb_spec c1 q) as [->|Hc]; rewrite !append_cons;
      intros [= ? ?]; congruence.
  - destruct (Ascii.eqb_spec c1 q) as [->|H1];
      destruct (Ascii.eqb_spec c2 q) as [->|H2]; rewrite !append_cons.
    + intros [= H]. destruct (IH _ H) as [-> ->]. done.
    + intros [= ? ?]. congruence.
    + intros [= ? ?]. congruence.
    + intros [= -> H]. destruct (IH _ H) as [-> ->]. done.
Qed.

(** X9. The rows of the report are unambiguous: with the semicolon as
    delimiter, the double quote as quote character and every field
    quoted, two rows are equal exactly when their two fields have the same
    text, whatever quote characters, semicolons or line breaks the fields
    contain ([None] and the empty string have the same text). *)
Theorem report_row_determines_fields (c_name c_ami c_name' c_ami'
    : option string) :
  writerow ";" dquote [c_name; c_ami] = writerow ";" dquote [c_name'; c_ami']
  ↔ field_text c_name = field_text c_name'
    ∧ field_text c_ami = field_text c_ami'.
Proof.
  rewrite !writerow_report_row. unfold report_row, quoted, lineterminator.
  split.
  - rewrite !append_cons, !append_assoc, !append_cons. intros [= H].
    apply double_quotes_closing in H as [Hn H]; [| discriminate].
    injection H as H.
    apply double_quotes_closing in H as [Ha _]; [| discriminate].
    done.
  - by intros [-> ->].
Qed.

(** ** The command, beyond the failed upload *)



(** *** Footprints *)
Section Footprint.
Context {W : Type} (aws : Provider W).
Context (calls : call → Prop) (levels : level → Prop)
  (paths : string → Prop).

Lemma within_refl (st : state W) : within calls levels paths st st.
Proof. exists [], []. by rewrite !app_nil_r. Qed.

Lemma within_trans (st0 st1 st2 : state W) :
  within calls levels paths st0 st1 → within calls levels paths st1 st2 →
  within calls levels paths st0 st2.
Proof.
  intros (evs1 & lg1 & Ht1 & Hc1 & Hl1 & Hv1 & Hf1)
         (evs2 & lg2 & Ht2 & Hc2 & Hl2 & Hv2 & Hf2).
  exists (evs1 ++ evs2), (lg1 ++ lg2).
  rewrite Ht2, Ht1, Hl2, Hl1, !app_assoc.
  repeat split; try by apply Forall_app.
  intros p Hp. by rewrite Hf2, Hf1.
Qed.

Lemma stays_ret {A} (a : A) : stays calls levels paths (@Run.ret W A a).
Proof. intros st. apply within_refl. Qed.

Lemma stays_raise {A} (e : exn) :
  stays calls levels paths (@Run.raise W A e).
Proof. intros st. apply within_refl. Qed.

Lemma stays_bind {A B} (m : M W A) (k : A → M W B) :
  stays calls levels paths m → (∀ a, stays calls levels paths (k a)) →
  stays calls levels paths (Run.bind m k).
Proof.
  intros Hm Hk st. unfold Run.bind. specialize (Hm st).
  destruct (m st) as [[a|e] st1]; [| exact Hm].
  exact (within_trans _ _ _ Hm (Hk a st1)).
Qed.

Lemma stays_try {A} (m : M W A) (h : client_error → M W A) :
  stays calls levels paths m → (∀ ce, stays calls levels paths (h ce)) →
  stays calls levels paths (try_except m h).
Proof.
  intros Hm Hh st. unfold try_except. specialize (Hm st).
  destruct (m st) as [[a|[ce| | | |]] st1]; try exact Hm.
  exact (within_trans _ _ _ Hm (Hh ce st1)).
Qed.

Lemma stays_emit lv msg :
  levels lv → stays calls levels paths (@emit W lv msg).
Proof.
  intros Hlv st. exists [], [(lv, msg)]. cbn. rewrite app_nil_r.
  repeat split; auto; by repeat constructor.
Qed.

Lemma within_record c e w (st : state W) :
  calls c → within calls levels paths st (record c e w st).
Proof.
  intros Hc. exists [(c, e)], []. cbn. rewrite app_nil_r.
  repeat split; auto; by repeat constructor.
Qed.

Lemma stays_invoke {A} c (op : W → result A * W) :
  calls c → stays calls levels paths (invoke c op).
Proof.
  intros Hc st. unfold invoke. destruct (op (world st)) as [r w].
  by apply within_record.
Qed.

Lemma stays_on_files c op (f : gmap string string → gmap string string) :
  calls c → (∀ fs p, ¬ paths p → f fs !! p = fs !! p) →
  stays calls levels paths (@on_files W c op f).
Proof.
  intros Hc Hf st. unfold on_files.
  destruct (op (files st) (world st)); eexists [(c, _)], []; cbn;
    rewrite app_nil_r; repeat split; auto; by repeat constructor.
Qed.

Lemma stays_ask {A} c (q : gmap string string → W → A) :
  calls c → stays calls levels paths (ask c q).
Proof.
  intros Hc st. exists [(c, None)], []. cbn. rewrite app_nil_r.
  repeat split; auto; by repeat constructor.
Qed.

Lemma stays_file_write file_name text :
  paths file_name → stays calls levels paths (file_write aws file_name text).
Proof.
  intros Hp st. unfold file_write.
  destruct (os_write aws (files st) file_name text (world st));
    [apply within_refl |].
  exists [], []. cbn. rewrite !app_nil_r.
  repeat split; auto. intros p Hn. apply lookup_alter_ne. by intros ->.
Qed.

Lemma stays_get_files : stays calls levels paths (@get_files W).
Proof. intros st. apply within_refl. Qed.

Lemma stays_for_each {A} (xs : list A) (body : A → M W unit) :
  (∀ x, stays calls levels paths (body x)) →
  stays calls levels paths (for_each xs body).
Proof.
  intros Hb. induction xs as [|x xs IH]; cbn [for_each].
  - apply stays_ret.
  - apply stays_bind; [apply Hb | by intros _].
Qed.

Lemma stays_is_bucket_exists bucket :
  calls (HeadBucket bucket) → levels INFO → levels WARNING →
  stays calls levels paths (is_bucket_exists aws bucket).
Proof.
  intros Hc Hi Hw.
  unfold is_bucket_exists, int_code, logger_warning, logger_info.
  unfold mbind, M_bind, mret, M_ret.
  apply stays_bind; [| intros [? ?]; apply stays_ret].
  apply stays_try.
  - apply stays_bind; [by apply stays_invoke | intros; apply stays_ret].
  - intros ce. apply stays_bind.
    + destruct (Py.int (Code ce)); [apply stays_ret | apply stays_raise].
    + intros n. destruct (n =? 403); [| destruct (n =? 404)];
        try apply stays_ret;
        (apply stays_bind; [by apply stays_emit | intros; apply stays_ret]).
Qed.

Lemma stays_create_not_exists_bucket bucket :
  calls (HeadBucket bucket) → calls (CreateBucket bucket) →
  levels INFO → levels WARNING →
  stays calls levels paths (create_not_exists_bucket aws bucket).
Proof.
  intros Hh Hc Hi Hw. unfold create_not_exists_bucket, logger_warning.
  unfold mbind, M_bind, mret, M_ret.
  apply stays_try; [| intros; by apply stays_emit].
  apply stays_bind; [by apply stays_is_bucket_exists |].
  intros [|]; cbn; [apply stays_ret | by apply stays_invoke].
Qed.

Lemma stays_generate_file_name :
  calls DatetimeNow → stays calls levels paths (generate_file_name aws).
Proof.
  intros Hc. unfold generate_file_name. unfold mbind, M_bind, mret, M_ret.
  apply stays_bind; [by apply stays_invoke | intros; apply stays_ret].
Qed.

Lemma stays_instance_record instance :
  (∀ id, calls (ImageLoad id)) →
  stays calls levels paths (instance_record aws instance).
Proof.
  intros Hc. unfold instance_record, get_ec2_name.
  unfold mbind, M_bind, mret, M_ret. apply stays_bind.
  - destruct (tags instance); [apply stays_ret | apply stays_raise].
  - intros found.
    apply stays_bind; [by apply stays_invoke | intros; apply stays_ret].
Qed.

Lemma within_for_instances instances failure acc st :
  (∀ id, calls (ImageLoad id)) →
  within calls levels paths st
    (for_instances aws instances failure acc st).2.
Proof.
  intros Hc. revert acc st.
  induction instances as [|instance rest IH]; intros acc st.
  - apply within_refl.
  - cbn [for_instances].
    pose proof (stays_instance_record instance Hc st) as Hq.
    destruct (instance_record aws instance st) as [[r|e] st1]; [| exact Hq].
    exact (within_trans _ _ _ Hq (IH _ st1)).
Qed.

Lemma stays_get_ec2_list :
  calls (InstancesFilter filters) → (∀ id, calls (ImageLoad id)) →
  levels WARNING →
  stays calls levels paths (get_ec2_list aws).
Proof.
  intros Hf Hc Hw st. unfold get_ec2_list.
  destruct (instances_filter aws filters (world st)) as [l w].
  pose proof (within_for_instances (yielded l) (failure l) []
                (record (InstancesFilter filters) (failure l) w st) Hc)
    as Hq.
  pose proof (within_trans _ _ _
                (within_record (InstancesFilter filters) (failure l) w st Hf)
                Hq) as H1.
  destruct (for_instances aws (yielded l) (failure l) [] _)
    as [[out [[ce| | | |]|]] st1]; try exact H1.
  refine (within_trans _ _ _ H1 _).
  apply (stays_bind (logger_warning (ce_str ce)) (λ _, Run.ret out));
    [by apply stays_emit | intros; apply stays_ret].
Qed.

Lemma stays_write_local_file file_name (records : list instance_info) :
  calls (Open file_name) → paths file_name →
  stays calls levels paths (write_local_file aws file_name records).
Proof.
  intros Hc Hp. unfold write_local_file. unfold mbind, M_bind.
  apply stays_bind.
  - apply stays_on_files; [done |]. intros fs p Hn.
    apply lookup_insert_ne. by intros ->.
  - intros _. apply stays_for_each. intros r. unfold write_record, getitem.
    unfold mbind, M_bind, mret, M_ret.
    apply stays_bind;
      [destruct (r !! Name); [apply stays_ret | apply stays_raise] |].
    intros c_name. apply stays_bind;
      [destruct (r !! Ami); [apply stays_ret | apply stays_raise] |].
    intros c_ami. by apply stays_file_write.
Qed.

Lemma stays_finish_calls f b :
  calls (UploadFile f b f) → calls (OsPathExists f) → calls (OsRemove f) →
  paths f →
  stays calls levels paths (finish aws (f, b)).
Proof.
  intros Hu He Hr Hp. unfold finish. unfold mbind, M_bind, mret, M_ret.
  apply stays_bind; [apply stays_get_files | intros fs].
  apply stays_bind; [by apply stays_invoke | intros _].
  apply stays_bind; [by apply stays_ask | intros present].
  destruct present; [| apply stays_ret].
  apply stays_on_files; [done |]. intros fs0 p Hn.
  apply lookup_delete_ne. by intros ->.
Qed.

End Footprint.

Section CommandFootprint.
Context {W : Type} (aws : Provider W).

Lemma generate_file_name_run st :
  generate_file_name aws st
  = (Ok (fstring ["ec2-instances-";
                  Py.replace "." "-" (now_timestamp aws (world st)).1;
                  ".csv"]),
     record DatetimeNow None (now_timestamp aws (world st)).2 st).
Proof.
  unfold generate_file_name. unfold_run.
  by destruct (now_timestamp aws (world st)) as [stamp w].
Qed.

Lemma stays_resolve_account levels region bucket file_name :
  stays (command_call region bucket file_name) levels (eq file_name)
    (resolve_account aws region).
Proof.
  unfold resolve_account, dict_getitem. unfold mbind, M_bind, mret, M_ret.
  repeat first
    [ apply stays_invoke; cbn; tauto
    | apply stays_bind; [| intros ?] ].
  match goal with |- stays _ _ _ (match ?x with _ => _ end) => destruct x end;
    [apply stays_ret | apply stays_raise].
Qed.

Lemma stays_finish levels region bucket file_name :
  stays (command_call region bucket file_name) levels (eq file_name)
    (finish aws (file_name, bucket)).
Proof.
  unfold finish. unfold mbind, M_bind, mret, M_ret.
  apply stays_bind; [apply stays_get_files | intros fs].
  apply stays_bind; [by apply stays_invoke | intros _].
  apply stays_bind; [by apply stays_ask | intros present].
  destruct present; [| apply stays_ret].
  apply stays_on_files; [done |]. intros fs0 p Hp.
  apply lookup_delete_ne. by intros ->.
Qed.

Lemma stays_report levels region bucket file_name :
  levels WARNING →
  stays (command_call region bucket file_name) levels (eq file_name)
    (report aws file_name bucket).
Proof.
  intros Hw. unfold report. unfold mbind, M_bind.
  apply stays_bind; [by apply stays_get_ec2_list | intros records].
  apply stays_bind; [by apply stays_write_local_file | intros _].
  apply stays_bind; [apply stays_invoke; cbn; tauto | intros _].
  apply stays_finish.
Qed.

(** The [try] block stays within the calls of one bucket and one report
    file, and logs below the [ERROR] level. *)
Lemma command_body_footprint region st :
  ∃ account stem,
    within
      (command_call region (get_bucket_name account region)
         (fstring ["ec2-instances-"; stem; ".csv"]))
      not_ERROR (eq (fstring ["ec2-instances-"; stem; ".csv"]))
      st (command_body aws region st).2.
Proof.
  unfold command_body. unfold mbind, M_bind, Run.bind.
  assert (not_ERROR INFO ∧ not_ERROR WARNING) as [Hi Hw] by done.
  destruct (resolve_account aws region st) as [[account|e] st1] eqn:H1.
  - exists account.
    destruct (create_not_exists_bucket aws (get_bucket_name account region)
                st1) as [[[]|e] st2] eqn:H2.
    + exists (Py.replace "." "-" (now_timestamp aws (world st2)).1).
      rewrite generate_file_name_run.
      set (f := fstring _).
      eapply within_trans;
        [| eapply within_trans;
           [| eapply within_trans; [| apply (stays_report _ _ _ _ Hw)]]].
      * pose proof (stays_resolve_account not_ERROR region
                      (get_bucket_name account region) f st) as H.
        by rewrite H1 in H.
      * pose proof (stays_create_not_exists_bucket aws
                      (command_call region (get_bucket_name account region) f)
                      not_ERROR (eq f) (get_bucket_name account region)
                      eq_refl eq_refl Hi Hw st1) as H.
        by rewrite H2 in H.
      * by apply within_record.
    + exists EmptyString.
      set (f := fstring _).
      eapply within_trans.
      * pose proof (stays_resolve_account not_ERROR region
                      (get_bucket_name account region) f st) as H.
        rewrite H1 in H. exact H.
      * pose proof (stays_create_not_exists_bucket aws
                      (command_call region (get_bucket_name account region) f)
                      not_ERROR (eq f) (get_bucket_name account region)
                      eq_refl eq_refl Hi Hw st1) as H.
        by rewrite H2 in H.
  - exists EmptyString, EmptyString.
    pose proof (stays_resolve_account not_ERROR region
                  (get_bucket_name EmptyString region)
                  (fstring ["ec2-instances-"; EmptyString; ".csv"]) st) as H.
    by rewrite H1 in H.
Qed.

End CommandFootprint.

(** *** A refused upload *)

Lemma try_logged_raise_inv {W} (m : M W unit) (st : state W) e st' :
  try_except m (λ ce, logger_error (ce_str ce)) st = (Raise e, st') →
  m st = (Raise e, st').
Proof.
  unfold try_except. destruct (m st) as [[[]|e1] st1]; [done |].
  by destruct e1.
Qed.

(** C9, as the code has it.  [upload_file] of [boto3] reports a refused
    upload by [S3UploadFailedError], which is not a [ClientError].
    Whenever a run of the command records an upload that raised, the
    exception is therefore not a [ClientError] (it is
    [S3UploadFailedError] when the service raised a [ClientError]), the
    handler of the command does not catch it and it leaves the command,
    and the run logs nothing at the [ERROR] level.  The failed upload is
    the last call of the run, so neither the existence check nor
    [os.remove] was reached, and the local report file, the one the upload
    was given and whose name was the object key, is still there. *)
Theorem refused_upload_is_not_caught {W} (aws : Provider W)
    (region : string) (st : state W) (r : result unit) (st' : state W)
    (evs : list event) (f b k : string) (e : exn) :
  create_running_ec2_list aws region st = (r, st') →
  trace st' = trace st ++ evs →
  (UploadFile f b k, Some e) ∈ evs →
  is_ClientError e = false
  ∧ r = Raise e
  ∧ (∃ (s1 : state W) res w,
       upload_file aws (files s1) f b f (world s1) = (res, w)
       ∧ s3_transfer res = Raise e
       ∧ ∀ ce, res = Raise (ClientError ce) → e = S3UploadFailedError)
  ∧ (∃ lg, log st' = log st ++ lg ∧ Forall (λ rec, rec.1 ≠ ERROR) lg)
  ∧ last evs = Some (UploadFile f b k, Some e)
  ∧ (∀ ev p, ev ∈ evs → ev.1 ≠ OsRemove p ∧ ev.1 ≠ OsPathExists p)
  ∧ is_Some (files st' !! f)
  ∧ k = f.
Proof.
  intros Hrun Htr Hin. pose proof Hrun as Hsplit.
  apply run_split in Hsplit
    as [(evs0 & Ht0 & Hq0)|(f0 & b0 & st1 & evs0 & _ & Ht0 & Hq0 & Hfile & Hfin)].
  { rewrite Ht0 in Htr. apply app_inv_head in Htr as <-.
    by destruct (quiet_no_upload _ _ _ _ _ Hq0 Hin). }
  apply finish_cases in Hfin as (res & w & Hup & _ & _ & Hcases).
  assert (∀ tl, trace st' = trace st1 ++ tl → evs = evs0 ++ tl) as Hevs.
  { intros tl Htl. rewrite Htl, Ht0, <- app_assoc in Htr.
    by apply app_inv_head in Htr. }
  assert (∀ tl, evs = evs0 ++ tl → (UploadFile f b k, Some e) ∈ tl) as Htl.
  { intros tl ->. apply elem_of_app in Hin as [Hin|Hin]; [| done].
    by destruct (quiet_no_upload _ _ _ _ _ Hq0 Hin). }
  destruct Hcases as [(e1 & Hres & -> & Ht & Hfs)|[H|[H|H]]].
  - pose proof (Hevs _ Ht) as ->. specialize (Htl _ eq_refl).
    apply list_elem_of_singleton in Htl. injection Htl as <- <- -> <-.
    pose proof (s3_transfer_raises _ _ Hres) as Hne.
    split; [done |]. split; [done |]. split.
    { exists st1, res, w. split; [done |]. split; [done |].
      intros ce ->. cbn in Hres. by injection Hres as <-. }
    split.
    { rewrite create_running_ec2_list_body in Hrun.
      apply try_logged_raise_inv in Hrun.
      destruct (command_body_footprint aws region st)
        as (account & stem & evs' & lg & _ & _ & Hl & Hlv & _).
      rewrite Hrun in Hl. by exists lg. }
    split; [by rewrite last_snoc |].
    split; [| by rewrite Hfs].
    intros ev p Hev. apply elem_of_app in Hev as [Hev|Hev].
    + rewrite Forall_forall in Hq0. specialize (Hq0 _ Hev).
      unfold quiet in Hq0. split; intros He; by rewrite He in Hq0.
    + apply list_elem_of_singleton in Hev as ->. by split.
  - destruct H as (_ & _ & _ & Ht & _).
    specialize (Htl _ (Hevs _ Ht)).
    apply elem_of_cons in Htl as [Htl|Htl]; [done |].
    by apply list_elem_of_singleton in Htl.
  - destruct H as (_ & _ & _ & _ & Ht & _).
    specialize (Htl _ (Hevs _ Ht)).
    apply elem_of_cons in Htl as [Htl|Htl]; [done |].
    apply elem_of_cons in Htl as [Htl|Htl]; [done |].
    by apply list_elem_of_singleton in Htl.
  - destruct H as (cls & _ & _ & _ & _ & Ht & _).
    specialize (Htl _ (Hevs _ Ht)).
    apply elem_of_cons in Htl as [Htl|Htl]; [done |].
    apply elem_of_cons in Htl as [Htl|Htl]; [done |].
    by apply list_elem_of_singleton in Htl.
Qed.

Lemma refused_upload_is_not_caught_witness :
  Script.upload upload_fails = Raise (ClientError access_denied)
  ∧ (UploadFile report_name bucket_name report_name,
     Some S3UploadFailedError) ∈ trace failed_run.2
  ∧ is_ClientError S3UploadFailedError = false
  ∧ failed_run.1 = Raise S3UploadFailedError
  ∧ (∃ lg, log failed_run.2 = log Script.start ++ lg
           ∧ Forall (λ rec, rec.1 ≠ ERROR) lg)
  ∧ last (trace failed_run.2)
    = Some (UploadFile report_name bucket_name report_name,
            Some S3UploadFailedError)
  ∧ is_Some (files failed_run.2 !! report_name).
Proof.
  assert ((UploadFile report_name bucket_name report_name,
           Some S3UploadFailedError) ∈ trace failed_run.2) as Hin.
  { apply (list_elem_of_lookup_2 _ 15%nat). vm_compute. reflexivity. }
  assert (create_running_ec2_list (Script.provider upload_fails) "us-east-1"
            Script.start = (failed_run.1, failed_run.2)) as Hrun.
  { vm_compute. reflexivity. }
  assert (trace failed_run.2 = trace Script.start ++ trace failed_run.2)
    as Htr.
  { vm_compute. reflexivity. }
  destruct (refused_upload_is_not_caught
              (Script.provider upload_fails) "us-east-1" Script.start
              failed_run.1 failed_run.2 (trace failed_run.2)
              report_name bucket_name report_name S3UploadFailedError
              Hrun Htr Hin)
    as (Hne & Hr & _ & Hlog & Hlast & _ & Hfile & _).
  split; [reflexivity |]. split; [exact Hin |]. split; [exact Hne |].
  split; [exact Hr |]. split; [exact Hlog |].
  split; [exact Hlast | exact Hfile].
Defined.

(** The run of the refused upload: the exception leaves the command, the
    log holds the one information record of the bucket resolver. *)
Example refused_upload_run :
  failed_run.1 = Raise (OtherError "S3UploadFailedError")
  ∧ log failed_run.2
    = [(INFO,
        "Bucket ec2-111122223333-us-east-1-list does not exist. Will be created.")].
Proof. vm_compute. split; reflexivity. Qed.


(** *** Where a [ClientError] can come from *)
Section Raises.
Context {W : Type} (aws : Provider W) (P : call → Prop).

Lemma stays_extends {A} calls levels paths (m : M W A) :
  stays calls levels paths m → extends m.
Proof. intros H st. destruct (H st) as (evs & _ & Ht & _). by exists evs. Qed.

Lemma extends_invoke {A} c (op : W → result A * W) : extends (invoke c op).
Proof.
  apply (stays_extends (λ _, True) (λ _, True) (λ _, True)).
  by apply stays_invoke.
Qed.

Lemma never_ret {A} (a : A) : never_ClientError (@Run.ret W A a).
Proof. by intros st ce st'. Qed.

Lemma never_raise {A} (e : exn) :
  is_ClientError e = false → never_ClientError (@Run.raise W A e).
Proof. intros He st ce st' [= -> _]. done. Qed.

Lemma never_bind {A B} (m : M W A) (k : A → M W B) :
  never_ClientError m → (∀ a, never_ClientError (k a)) →
  never_ClientError (Run.bind m k).
Proof.
  intros Hm Hk st ce st'. unfold Run.bind. specialize (Hm st ce).
  destruct (m st) as [[a|e] st1]; [apply Hk |].
  intros [= -> ->]. by destruct (Hm st').
Qed.

Lemma never_for_each {A} (xs : list A) (body : A → M W unit) :
  (∀ x, never_ClientError (body x)) → never_ClientError (for_each xs body).
Proof.
  intros Hb. induction xs as [|x xs IH]; cbn [for_each].
  - apply never_ret.
  - apply never_bind; [apply Hb | by intros _].
Qed.

(** A [try] whose handler only logs lets no [ClientError] through. *)
Lemma never_try_logged (m : M W unit) lv (msg : client_error → string) :
  never_ClientError (try_except m (λ ce, emit lv (msg ce))).
Proof.
  intros st ce st'. unfold try_except, emit.
  by destruct (m st) as [[a|[ce'| | | |]] st1].
Qed.

Lemma never_on_files c op f : never_ClientError (@on_files W c op f).
Proof.
  intros st ce st'. unfold on_files.
  by destruct (op (files st) (world st)).
Qed.

Lemma never_write_local_file file_name (records : list instance_info) :
  never_ClientError (write_local_file aws file_name records).
Proof.
  unfold write_local_file. unfold mbind, M_bind.
  apply never_bind; [apply never_on_files |]. intros _.
  apply never_for_each. intros r. unfold write_record, getitem.
  unfold mbind, M_bind, mret, M_ret.
  apply never_bind;
    [destruct (r !! Name); [apply never_ret | by apply never_raise] |].
  intros c_name. apply never_bind;
    [destruct (r !! Ami); [apply never_ret | by apply never_raise] |].
  intros c_ami st ce st'. unfold file_write.
  by destruct (os_write aws (files st) file_name _ (world st)).
Qed.

Lemma raises_by_never {A} (m : M W A) :
  never_ClientError m → raises_by P m.
Proof. intros H st ce st' Hm. by destruct (H st ce st'). Qed.

Lemma raises_by_invoke {A} c (op : W → result A * W) :
  P c → raises_by P (invoke c op).
Proof.
  intros Hc st ce st'. unfold invoke.
  destruct (op (world st)) as [r w]. intros [= -> <-].
  exists [], c. by split.
Qed.

Lemma raises_by_bind {A B} (m : M W A) (k : A → M W B) :
  extends m → raises_by P m → (∀ a, raises_by P (k a)) →
  raises_by P (Run.bind m k).
Proof.
  intros He Hm Hk st ce st'. unfold Run.bind.
  specialize (He st). specialize (Hm st ce).
  destruct (m st) as [[a|e] st1].
  - intros H. destruct (Hk a st1 ce st' H) as (evs & c & Ht & Hc).
    destruct He as (evs1 & He). cbn in He.
    exists (evs1 ++ evs), c. split; [| done].
    by rewrite Ht, He, <- !app_assoc.
  - intros [= -> ->]. by apply Hm.
Qed.

(** Calls outside [P] cannot end [m] by a [ClientError] of a call in
    [P]. *)
Lemma fails_on_stays {A} levels paths (m : M W A) :
  stays (λ c, ¬ P c) levels paths m → fails_on P m.
Proof.
  intros H st. destruct (H st) as (evs & lg & Ht & Hf & _).
  exists evs. split; [done |]. intros c ce Hin Hc.
  rewrite Forall_forall in Hf. by destruct (Hf _ Hin).
Qed.

Lemma fails_on_invoke {A} c (op : W → result A * W) :
  fails_on P (invoke c op).
Proof.
  intros st. unfold invoke. destruct (op (world st)) as [r w].
  exists [(c, raised r)]. split; [done |]. intros c' ce Hin _.
  apply list_elem_of_singleton in Hin. injection Hin as -> Hr.
  destruct r as [a|e]; [done |]. cbn in Hr. by injection Hr as ->.
Qed.

Lemma fails_on_bind {A B} (m : M W A) (k : A → M W B) :
  fails_on P m → (∀ a, fails_on P (k a)) → fails_on P (Run.bind m k).
Proof.
  intros Hm Hk st. unfold Run.bind.
  destruct (Hm st) as (evs1 & Ht1 & H1).
  destruct (m st) as [[a|e] st1]; cbn in Ht1, H1.
  - destruct (Hk a st1) as (evs2 & Ht2 & H2).
    exists (evs1 ++ evs2). split; [by rewrite Ht2, Ht1, app_assoc |].
    intros c ce Hin Hc. apply elem_of_app in Hin as [Hin|Hin].
    + by specialize (H1 c ce Hin Hc).
    + by apply (H2 c).
  - exists evs1. split; [done |]. intros c ce Hin Hc.
    specialize (H1 c ce Hin Hc). by injection H1 as ->.
Qed.

End Raises.

Section CommandRaises.
Context {W : Type} (aws : Provider W).

Lemma raises_by_resolve_account region :
  raises_by top_level_call (resolve_account aws region).
Proof.
  unfold resolve_account, dict_getitem. unfold mbind, M_bind, mret, M_ret.
  repeat first
    [ apply raises_by_invoke; exact I
    | apply raises_by_bind; [apply extends_invoke | | intros ?] ].
  apply raises_by_never.
  match goal with |- never_ClientError (match ?x with _ => _ end) =>
    destruct x end; [apply never_ret | by apply never_raise].
Qed.

Lemma raises_by_command_body region :
  raises_by top_level_call (command_body aws region).
Proof.
  unfold command_body, report. unfold mbind, M_bind.
  apply raises_by_bind.
  { apply (stays_extends (command_call region EmptyString EmptyString)
             (λ _, True) (eq EmptyString)).
    apply stays_resolve_account. }
  { apply raises_by_resolve_account. }
  intros account. apply raises_by_bind.
  { apply (stays_extends (λ _, True) (λ _, True) (λ _, True)).
    by apply stays_create_not_exists_bucket. }
  { apply raises_by_never. unfold create_not_exists_bucket, logger_warning.
    apply never_try_logged. }
  intros _. apply raises_by_bind.
  { apply (stays_extends (λ _, True) (λ _, True) (λ _, True)).
    by apply stays_generate_file_name. }
  { apply raises_by_never. intros st ce st'.
    by rewrite generate_file_name_run. }
  intros csv_f_name. apply raises_by_bind.
  { apply (stays_extends (λ _, True) (λ _, True) (λ _, True)).
    by apply stays_get_ec2_list. }
  { apply raises_by_never. intros st ce st'.
    apply get_ec2_list_no_ClientError. }
  intros records. apply raises_by_bind.
  { apply (stays_extends (λ _, True) (λ _, True) (λ _, True)).
    by apply stays_write_local_file. }
  { apply raises_by_never, never_write_local_file. }
  intros _. apply raises_by_bind;
    [apply extends_invoke | by apply raises_by_invoke |].
  intros _. apply raises_by_never. intros st ce st'.
  apply finish_no_ClientError.
Qed.

Lemma fails_on_resolve_account region :
  fails_on top_level_call (resolve_account aws region).
Proof.
  unfold resolve_account, dict_getitem. unfold mbind, M_bind, mret, M_ret.
  repeat first
    [ apply fails_on_invoke
    | apply fails_on_bind; [| intros ?] ].
  apply (fails_on_stays _ (λ _, True) (λ _, True)).
  match goal with |- stays _ _ _ (match ?x with _ => _ end) => destruct x end;
    [apply stays_ret | apply stays_raise].
Qed.

(** A [ClientError] of a client or resource construction or of the
    identity lookup ends the [try] block. *)
Lemma fails_on_command_body region :
  fails_on top_level_call (command_body aws region).
Proof.
  unfold command_body, report. unfold mbind, M_bind.
  apply fails_on_bind; [apply fails_on_resolve_account |].
  intros account. apply fails_on_bind.
  { apply (fails_on_stays _ (λ _, True) (λ _, True)).
    apply stays_create_not_exists_bucket; cbn; tauto. }
  intros _. apply fails_on_bind.
  { apply (fails_on_stays _ (λ _, True) (λ _, True)).
    apply stays_generate_file_name; cbn; tauto. }
  intros csv_f_name. apply fails_on_bind.
  { apply (fails_on_stays _ (λ _, True) (λ _, True)).
    apply stays_get_ec2_list; cbn; tauto. }
  intros records. apply fails_on_bind.
  { apply (fails_on_stays _ (λ _, True) (λ _, True)).
    apply stays_write_local_file; cbn; tauto. }
  intros _. apply fails_on_bind; [apply fails_on_invoke |].
  intros _. apply (fails_on_stays _ (λ _, True) (λ _, True)).
  apply stays_finish_calls; cbn; tauto.
Qed.

End CommandRaises.

(** X13. Error handling of the command.  No [ClientError] leaves it.  It
    logs at the [ERROR] level exactly when one of the calls whose
    [ClientError] no function of the script handles, a client or resource
    construction or the identity lookup, raised a [ClientError]: that call
    is then the last of the run, the record is [str(ce)] of its error and
    the last of the log, and the command returns normally.  In every other
    run nothing is logged at the [ERROR] level and none of these calls
    raised a [ClientError].  The upload is not among these calls: its
    failure is not a [ClientError]. *)
Theorem command_error_handling {W} (aws : Provider W) (region : string)
    (st : state W) :
  let after := create_running_ec2_list aws region st in
  ∃ evs lg tail,
    trace after.2 = trace st ++ evs
    ∧ log after.2 = log st ++ lg ++ tail
    ∧ Forall (λ rec, rec.1 ≠ ERROR) lg
    ∧ (∀ ce, after.1 ≠ Raise (ClientError ce))
    ∧ ((∃ c ce evs0,
          evs = evs0 ++ [(c, Some (ClientError ce))] ∧ top_level_call c
          ∧ tail = [(ERROR, ce_str ce)] ∧ after.1 = Ok tt)
       ∨ (tail = []
          ∧ ∀ c ce, (c, Some (ClientError ce)) ∈ evs → ¬ top_level_call c))
    ∧ ∀ f b k ce, (UploadFile f b k, Some (ClientError ce)) ∉ evs.
Proof.
  cbn zeta.
  assert (∀ evs f b k ce,
            trace (create_running_ec2_list aws region st).2
            = trace st ++ evs →
            (UploadFile f b k, Some (ClientError ce)) ∉ evs) as Hup.
  { intros evs f b k ce Htr Hin.
    destruct (create_running_ec2_list aws region st) as [r st'] eqn:Hrun.
    apply run_split in Hrun
      as [(evs0 & Ht0 & Hq0)
         |(f0 & b0 & st1 & evs0 & _ & Ht0 & Hq0 & _ & Hfin)]; cbn in Htr.
    - rewrite Ht0 in Htr. apply app_inv_head in Htr as <-.
      by destruct (quiet_no_upload _ _ _ _ _ Hq0 Hin).
    - apply finish_cases in Hfin as (res & w & _ & _ & _ & Hcases).
      assert (∃ tl, evs = evs0 ++ tl
                    ∧ (UploadFile f b k, Some (ClientError ce)) ∉ tl)
        as (tl & -> & Htl).
      { destruct Hcases as [(e & Hres & _ & Ht & _)|[H|[H|H]]].
        - exists [(UploadFile f0 b0 f0, Some e)]. split.
          + rewrite Ht, Ht0, <- app_assoc in Htr.
            by apply app_inv_head in Htr.
          + intros Hc. apply list_elem_of_singleton in Hc.
            injection Hc as _ _ _ <-. by apply s3_transfer_raises in Hres.
        - destruct H as (_ & _ & _ & Ht & _). eexists. split.
          + rewrite Ht, Ht0, <- app_assoc in Htr.
            apply app_inv_head in Htr. symmetry. exact Htr.
          + intros Hc. repeat (apply elem_of_cons in Hc as [Hc|Hc]; [done |]).
            by inversion Hc.
        - destruct H as (_ & _ & _ & _ & Ht & _). eexists. split.
          + rewrite Ht, Ht0, <- app_assoc in Htr.
            apply app_inv_head in Htr. symmetry. exact Htr.
          + intros Hc. repeat (apply elem_of_cons in Hc as [Hc|Hc]; [done |]).
            by inversion Hc.
        - destruct H as (cls & _ & _ & _ & _ & Ht & _). eexists. split.
          + rewrite Ht, Ht0, <- app_assoc in Htr.
            apply app_inv_head in Htr. symmetry. exact Htr.
          + intros Hc. repeat (apply elem_of_cons in Hc as [Hc|Hc]; [done |]).
            by inversion Hc. }
      apply elem_of_app in Hin as [Hin|Hin]; [| done].
      by destruct (quiet_no_upload _ _ _ _ _ Hq0 Hin). }
  revert Hup. rewrite create_running_ec2_list_body. unfold try_except.
  destruct (command_body_footprint aws region st)
    as (account & stem & evs & lg & Ht & _ & Hl & Hlv & _).
  pose proof (raises_by_command_body aws region st) as Hr.
  destruct (fails_on_command_body aws region st) as (evs' & Ht' & Hfail).
  rewrite Ht in Ht'. apply app_inv_head in Ht' as <-.
  assert ((∀ ce, (command_body aws region st).1 ≠ Raise (ClientError ce)) →
          ∀ c ce, (c, Some (ClientError ce)) ∈ evs → ¬ top_level_call c)
    as Hnone.
  { intros Hno c ce Hin Hc. exact (Hno ce (Hfail c ce Hin Hc)). }
  clear Hfail.
  destruct (command_body aws region st) as [[[]|e] st1];
    cbn in Ht, Hl, Hnone.
  - intros Hup. exists evs, lg, []. rewrite app_nil_r.
    split; [done |]. split; [done |]. split; [done |]. split; [done |].
    split; [| intros f b k ce; by apply Hup].
    right. split; [done |]. by apply Hnone.
  - destruct e as [ce| | | |].
    2-5: intros Hup; exists evs, lg, []; rewrite app_nil_r;
      (split; [done |]); (split; [done |]); (split; [done |]);
      (split; [done |]); (split; [| intros f b k ce; by apply Hup]);
      right; (split; [done |]); by apply Hnone.
    destruct (Hr ce st1 eq_refl) as (evs0 & c & Ht1 & Hc).
    unfold logger_error, emit. cbn. intros Hup.
    exists evs, lg, [(ERROR, ce_str ce)].
    split; [done |]. split; [by rewrite Hl, <- app_assoc |].
    split; [done |]. split; [done |].
    split; [| intros f b k ce'; by apply Hup].
    left. exists c, ce, evs0. repeat split; auto.
    rewrite Ht in Ht1. by apply app_inv_head in Ht1.
Qed.

Example identity_lookup_denied :
  let run := create_running_ec2_list (Script.provider token_expired)
               "us-east-1" Script.start in
  run.1 = Ok tt
  ∧ log run.2 = [(ERROR, "The security token is expired")]
  ∧ last (trace run.2)
    = Some (GetCallerIdentity,
            Some (Script.http "ExpiredToken"
                    "The security token is expired")).
Proof. vm_compute. repeat split. Qed.

(** X14. The footprint of one run of the command.  There are an account
    identifier and a file-name stem such that every bucket call of the
    run, probe, creation or upload, names the bucket
    [ec2-<account>-<region>-list], every file call names the report
    [ec2-instances-<stem>.csv], the upload stores that file under its own
    name, the listing is requested with the running-state filter, and no
    local file other than the report is changed. *)
Theorem command_footprint {W} (aws : Provider W) (region : string)
    (st : state W) :
  let after := (create_running_ec2_list aws region st).2 in
  ∃ account stem evs,
    let bucket := get_bucket_name account region in
    let file_name := "ec2-instances-" +:+ stem +:+ ".csv" in
    trace after = trace st ++ evs
    ∧ Forall (λ ev, command_call region bucket file_name ev.1) evs
    ∧ ∀ p, p ≠ file_name → files after !! p = files st !! p.
Proof.
  cbn zeta. rewrite create_running_ec2_list_body. unfold try_except.
  destruct (command_body_footprint aws region st)
    as (account & stem & evs & lg & Ht & Hc & _ & _ & Hf).
  exists account, stem, evs.
  assert (fstring ["ec2-instances-"; stem; ".csv"]
          = "ec2-instances-" +:+ stem +:+ ".csv") as Hname.
  { reflexivity. }
  rewrite Hname in Hc, Hf.
  destruct (command_body aws region st) as [[[]|e] st1]; cbn in Ht, Hf;
    [| destruct e]; cbn; (split; [done |]); (split; [done |]);
    intros p Hp; apply Hf; congruence.
Qed.

(** ** Bucket names across accounts and regions *)

Lemma append_length (a b : string) :
  String.length (a +:+ b) = (String.length a + String.length b)%nat.
Proof.
  induction a as [|x a IH]; [done |]. rewrite append_cons. cbn.
  by rewrite IH.
Qed.

Lemma append_cancel_r (a a' s : string) : a +:+ s = a' +:+ s → a = a'.
Proof.
  revert a'. induction a as [|x a IH]; intros [|x' a'] H.
  - done.
  - apply (f_equal String.length) in H.
    change (EmptyString +:+ s) with s in H.
    rewrite append_cons in H. cbn in H. rewrite append_length in H. lia.
  - apply (f_equal String.length) in H.
    change (EmptyString +:+ s) with s in H.
    rewrite append_cons in H. cbn in H. rewrite append_length in H. lia.
  - rewrite !append_cons in H. injection H as -> H. by rewrite (IH _ H).
Qed.

(** Two texts without [sep], each followed by [sep], start equal strings
    only when they are the same text. *)
Lemma split_at_first (sep : ascii) (a a' x x' : string) :
  sep ∉ list_ascii_of_string a → sep ∉ list_ascii_of_string a' →
  a +:+ String sep x = a' +:+ String sep x' →
  a = a' ∧ x = x'.
Proof.
  revert a'. induction a as [|c a IH]; intros [|c' a'] Ha Ha' H.
  - by injection H.
  - rewrite append_cons in H. injection H as <- _.
    destruct Ha'. apply list_elem_of_here.
  - rewrite append_cons in H. injection H as -> _.
    destruct Ha. apply list_elem_of_here.
  - rewrite !append_cons in H. injection H as -> H.
    destruct (IH a') as [-> ->]; [| | done | done].
    + intros Hin. apply Ha. by apply list_elem_of_further.
    + intros Hin. apply Ha'. by apply list_elem_of_further.
Qed.

(** X15. Bucket names tell accounts and regions apart when the account
    identifiers contain no hyphen, as the twelve digits of an AWS account
    do: two such accounts get the same bucket name only when the accounts
    and the regions are equal.  Without that condition the name is
    ambiguous, a hyphen of the account reading as the separator. *)
Theorem get_bucket_name_injective (account region account' region' : string) :
  "-"%char ∉ list_ascii_of_string account →
  "-"%char ∉ list_ascii_of_string account' →
  get_bucket_name account region = get_bucket_name account' region' →
  account = account' ∧ region = region'.
Proof.
  intros Ha Ha' H. unfold get_bucket_name, fstring in H. cbn [foldr] in H.
  rewrite !append_empty_r in H.
  apply (String.app_inj "ec2-") in H.
  change ("-" +:+ region +:+ "-list")
    with (String "-" (region +:+ "-list")) in H.
  change ("-" +:+ region' +:+ "-list")
    with (String "-" (region' +:+ "-list")) in H.
  apply split_at_first in H as [-> H]; [| done | done].
  split; [done |]. by apply append_cancel_r in H.
Qed.

Lemma get_bucket_name_injective_witness :
  ("-"%char ∉ list_ascii_of_string "111122223333")
  ∧ (get_bucket_name "111122223333" "us-east-1"
     = get_bucket_name "111122223333" "us-east-1")
  ∧ ("111122223333" = "111122223333" ∧ "us-east-1" = "us-east-1").
Proof.
  assert ("-"%char ∉ list_ascii_of_string "111122223333") as Hd.
  { cbn. intros H. repeat (apply elem_of_cons in H as [H|H]; [done |]).
    by inversion H. }
  split; [exact Hd |]. split; [reflexivity |].
  exact (get_bucket_name_injective "111122223333" "us-east-1"
           "111122223333" "us-east-1" Hd Hd eq_refl).
Defined.

Example bucket_name_collision :
  get_bucket_name "a-b" "c" = get_bucket_name "a" "b-c".
Proof. reflexivity. Qed.

(** ** What the upload is given *)
Section ReportContent.
Context {W : Type} (aws : Provider W).

Lemma ensures_from_bind {A B} (I : state W → Prop) (m : M W A)
    (k : A → M W B) Q :
  (∀ st, I st → I (m st).2) → (∀ a, ensures_from I (k a) Q) →
  ensures_from I (Run.bind m k) Q.
Proof.
  intros Hm Hk st b st' HI. unfold Run.bind. specialize (Hm st HI).
  destruct (m st) as [[a|e] st1]; [by apply Hk | done].
Qed.

Lemma quiet_from_step {A} (m : M W A) (st0 : state W) :
  quiet_run m → ∀ st, quiet_from st0 st → quiet_from st0 (m st).2.
Proof. intros Hm st H. exact (quiet_from_trans _ _ _ H (Hm st)). Qed.

(** When the upload is about to start, the report file holds one row per
    record of the listing made since the run started. *)
Lemma prepare_report_content region (st0 : state W) :
  ensures_from (quiet_from st0) (prepare aws region)
    (λ names st,
       ∃ recs sa sb,
         quiet_from st0 sa
         ∧ get_ec2_list aws sa = (Ok recs, sb)
         ∧ quiet_from sb st
         ∧ files st !! names.1 = Some (fstring (row_of <$> recs))).
Proof.
  unfold prepare, dict_getitem. unfold mbind, M_bind, mret, M_ret.
  do 7 (apply ensures_from_bind;
          [apply quiet_from_step; by apply quiet_invoke | intros ?]).
  apply ensures_from_bind; [| intros account].
  { apply quiet_from_step.
    match goal with |- quiet_run (match ?x with _ => _ end) => destruct x end;
      [apply quiet_ret | apply quiet_raise]. }
  apply ensures_from_bind;
    [apply quiet_from_step, quiet_create_not_exists_bucket | intros _].
  apply ensures_from_bind;
    [apply quiet_from_step, quiet_generate_file_name | intros csv_f_name].
  intros st names st' HI H. unfold Run.bind in H.
  destruct (get_ec2_list aws st) as [[recs|e] st1] eqn:Hg; [| done].
  destruct (write_local_file aws csv_f_name recs st1) as [[[]|e] st2]
    eqn:Hw; [| done].
  apply write_local_file_Ok in Hw as [_ ->].
  unfold invoke in H. cbn in H.
  destruct (boto3_client aws "s3" None (world st1)) as [[[]|e] w];
    [| done].
  cbn in H. injection H as <- <-. exists recs, st, st1.
  split; [done |]. split; [done |]. split.
  - exists [(Open csv_f_name, None); (Boto3Client "s3" None, None)].
    cbn. rewrite <- app_assoc. split; [done |]. by repeat constructor.
  - cbn. by rewrite lookup_insert_eq.
Qed.

End ReportContent.

(** X16. The file a failed upload leaves behind is the full report: when
    a run records an upload that raised, whatever the exception, the run
    made a listing after it started and before the upload, and the local
    file the upload was given still exists and holds exactly one row per
    record that this [get_ec2_list] call returned, in order. *)
Theorem failed_upload_leaves_full_report {W} (aws : Provider W)
    (region : string) (st : state W) (r : result unit) (st' : state W)
    (evs : list event) (f b k : string) (e : exn) :
  create_running_ec2_list aws region st = (r, st') →
  trace st' = trace st ++ evs →
  (UploadFile f b k, Some e) ∈ evs →
  ∃ recs sa sb evs1 evs2,
    trace sa = trace st ++ evs1
    ∧ get_ec2_list aws sa = (Ok recs, sb)
    ∧ trace st' = trace sb ++ evs2
    ∧ files st' !! f
      = Some (fstring ((λ rec, writerow ";" dquote
                                 [default None (rec !! Name);
                                  default None (rec !! Ami)]) <$> recs)).
Proof.
  intros Hrun Htr Hin.
  apply run_split in Hrun
    as [(evs0 & Ht0 & Hq0)
       |(f0 & b0 & st1 & evs0 & Hprep & Ht0 & Hq0 & _ & Hfin)].
  { rewrite Ht0 in Htr. apply app_inv_head in Htr as <-.
    by destruct (quiet_no_upload _ _ _ _ _ Hq0 Hin). }
  destruct (prepare_report_content aws region st st _ _
              (quiet_from_refl st) Hprep)
    as (recs & sa & sb & (evs1 & Hsa & _) & Hg & (evs2 & Hsb & _) & Hc).
  cbn in Hc.
  apply finish_cases in Hfin as (res & w & _ & _ & _ & Hcases).
  assert (∀ tl, trace st' = trace st1 ++ tl →
                (UploadFile f b k, Some e) ∈ tl) as Htl.
  { intros tl Ht1. rewrite Ht1, Ht0, <- app_assoc in Htr.
    apply app_inv_head in Htr as <-.
    apply elem_of_app in Hin as [Hin|Hin]; [| done].
    by destruct (quiet_no_upload _ _ _ _ _ Hq0 Hin). }
  destruct Hcases as [(e1 & _ & _ & Ht & Hfs)|[H|[H|H]]].
  - pose proof (Htl _ Ht) as Hin1.
    apply list_elem_of_singleton in Hin1. injection Hin1 as <- <- -> <-.
    exists recs, sa, sb, evs1, (evs2 ++ [(UploadFile f b f, Some e)]).
    split; [done |]. split; [done |].
    split; [by rewrite Ht, Hsb, app_assoc |].
    rewrite Hfs, Hc. do 2 f_equal.
    apply list_fmap_ext. intros i rec _. unfold row_of.
    by rewrite writerow_report_row.
  - destruct H as (_ & _ & _ & Ht & _). specialize (Htl _ Ht).
    repeat (apply elem_of_cons in Htl as [Htl|Htl]; [done |]).
    by inversion Htl.
  - destruct H as (_ & _ & _ & _ & Ht & _). specialize (Htl _ Ht).
    repeat (apply elem_of_cons in Htl as [Htl|Htl]; [done |]).
    by inversion Htl.
  - destruct H as (cls & _ & _ & _ & _ & Ht & _). specialize (Htl _ Ht).
    repeat (apply elem_of_cons in Htl as [Htl|Htl]; [done |]).
    by inversion Htl.
Qed.

Lemma failed_upload_leaves_full_report_witness :
  (UploadFile report_name bucket_name report_name,
   Some S3UploadFailedError) ∈ trace failed_run.2
  ∧ ∃ recs (sa sb : state unit) evs1 evs2,
      trace sa = trace Script.start ++ evs1
      ∧ get_ec2_list (Script.provider upload_fails) sa = (Ok recs, sb)
      ∧ trace failed_run.2 = trace sb ++ evs2
      ∧ files failed_run.2 !! report_name
        = Some (fstring ((λ rec, writerow ";" dquote
                                   [default None (rec !! Name);
                                    default None (rec !! Ami)]) <$> recs)).
Proof.
  assert ((UploadFile report_name bucket_name report_name,
           Some S3UploadFailedError) ∈ trace failed_run.2) as Hin.
  { apply (list_elem_of_lookup_2 _ 15%nat). vm_compute. reflexivity. }
  assert (create_running_ec2_list (Script.provider upload_fails) "us-east-1"
            Script.start = (failed_run.1, failed_run.2)) as Hrun.
  { vm_compute. reflexivity. }
  assert (trace failed_run.2 = trace Script.start ++ trace failed_run.2)
    as Htr.
  { vm_compute. reflexivity. }
  split; [exact Hin |].
  exact (failed_upload_leaves_full_report
           (Script.provider upload_fails) "us-east-1" Script.start
           failed_run.1 failed_run.2 (trace failed_run.2)
           report_name bucket_name report_name S3UploadFailedError
           Hrun Htr Hin).
Defined.

(** ** The exceptions that can leave the command *)
Section Escapes.
Context {W : Type} (aws : Provider W).

Lemma escape_extends e (st st1 st' : state W) evs1 :
  trace st1 = trace st ++ evs1 → escape aws e st1 st' → escape aws e st st'.
Proof.
  intros H1 [(evs & c & Ht & Hin)|H]; [| by right].
  left. exists (evs1 ++ evs), c. rewrite Ht, H1, app_assoc.
  split; [done |]. apply elem_of_app. by right.
Qed.

Lemma raises_within_ret {A} (a : A) : raises_within aws (@Run.ret W A a).
Proof. by intros st e st'. Qed.

Lemma raises_within_invoke {A} c (op : W → result A * W) :
  raises_within aws (invoke c op).
Proof.
  intros st e st'. unfold invoke. destruct (op (world st)) as [r w].
  intros [= -> <-]. left. exists [(c, Some e)], c. cbn.
  split; [done |]. apply list_elem_of_here.
Qed.

Lemma raises_within_emit lv msg : raises_within aws (@emit W lv msg).
Proof. by intros st e st'. Qed.

(** The continuation is only asked about the values [m] returns. *)
Lemma raises_within_bind {A B} (m : M W A) (k : A → M W B) :
  extends m → raises_within aws m →
  (∀ st a st1 e st', m st = (Ok a, st1) → k a st1 = (Raise e, st') →
     escape aws e st1 st') →
  raises_within aws (Run.bind m k).
Proof.
  intros He Hm Hk st e st'. unfold Run.bind.
  specialize (He st). specialize (Hm st e).
  destruct (m st) as [[a|e1] st1] eqn:Hr.
  - intros H. destruct He as (evs1 & He).
    exact (escape_extends _ _ _ _ _ He (Hk st a st1 e st' Hr H)).
  - intros [= -> ->]. by apply Hm.
Qed.

Lemma raises_within_bind_all {A B} (m : M W A) (k : A → M W B) :
  extends m → raises_within aws m → (∀ a, raises_within aws (k a)) →
  raises_within aws (Run.bind m k).
Proof.
  intros He Hm Hk. apply raises_within_bind; [done | done |].
  intros st a st1 e st' _ H. by apply (Hk a).
Qed.

Lemma raises_within_try {A} (m : M W A) (h : client_error → M W A) :
  extends m → raises_within aws m → (∀ ce, raises_within aws (h ce)) →
  raises_within aws (try_except m h).
Proof.
  intros He Hm Hh st e st'. unfold try_except.
  specialize (He st). specialize (Hm st).
  destruct (m st) as [[a|e1] st1]; [done |].
  destruct e1 as [ce| | | |]; try (intros [= <- <-]; by apply Hm).
  intros H. destruct He as (evs1 & He).
  exact (escape_extends _ _ _ _ _ He (Hh ce st1 e st' H)).
Qed.

Lemma raises_within_is_bucket_exists bucket :
  raises_within aws (is_bucket_exists aws bucket).
Proof.
  unfold is_bucket_exists, int_code, logger_warning, logger_info.
  unfold mbind, M_bind, mret, M_ret.
  apply raises_within_bind_all;
    [| | intros [? ?]; apply raises_within_ret].
  { apply (stays_extends (λ _, True) (λ _, True) (λ _, True)).
    apply stays_try.
    - apply stays_bind; [by apply stays_invoke | intros; apply stays_ret].
    - intros ce. apply stays_bind.
      + destruct (Py.int (Code ce)); [apply stays_ret | apply stays_raise].
      + intros n. destruct (n =? 403); [| destruct (n =? 404)];
          try apply stays_ret;
          (apply stays_bind; [by apply stays_emit | intros; apply stays_ret]).
  }
  apply raises_within_try.
  - apply (stays_extends (λ _, True) (λ _, True) (λ _, True)).
    apply stays_bind; [by apply stays_invoke | intros; apply stays_ret].
  - apply raises_within_bind_all;
      [apply extends_invoke | apply raises_within_invoke |
       intros; apply raises_within_ret].
  - intros ce st e st'. unfold Run.bind.
    destruct (Py.int (Code ce)) as [n|] eqn:Hc; cbn.
    + destruct (n =? 403); [done |]. by destruct (n =? 404).
    + intros [= <- <-]. right; right; left. by exists (Code ce).
Qed.

Lemma raises_within_create_not_exists_bucket bucket :
  raises_within aws (create_not_exists_bucket aws bucket).
Proof.
  unfold create_not_exists_bucket, logger_warning.
  unfold mbind, M_bind, mret, M_ret.
  apply raises_within_try; [| | intros; apply raises_within_emit].
  - apply (stays_extends (λ _, True) (λ _, True) (λ _, True)).
    apply stays_bind; [by apply stays_is_bucket_exists |].
    intros [|]; cbn; [apply stays_ret | by apply stays_invoke].
  - apply raises_within_bind_all.
    + apply (stays_extends (λ _, True) (λ _, True) (λ _, True)).
      by apply stays_is_bucket_exists.
    + apply raises_within_is_bucket_exists.
    + intros [|]; cbn; [apply raises_within_ret | apply raises_within_invoke].
Qed.

Lemma raises_within_instance_record instance :
  raises_within aws (instance_record aws instance).
Proof.
  intros st e st'. destruct (tags instance) as [ts|] eqn:Ht.
  - rewrite (instance_record_run aws instance ts st Ht).
    destruct (image_load aws (image_id instance) (world st)) as [[i|e1] w];
      [done |].
    intros [= -> <-]. left. exists [(ImageLoad (image_id instance), Some e)].
    eexists. cbn. split; [done |]. apply list_elem_of_here.
  - rewrite (instance_record_tagless aws instance st Ht).
    intros [= <- <-]. by right; right; right; left.
Qed.

(** The exception that ends the loop is the one that ended the iteration
    or one that arose in the body. *)
Lemma for_instances_raised instances failure acc (st : state W) out e st' :
  for_instances aws instances failure acc st = ((out, Some e), st') →
  failure = Some e ∨ escape aws e st st'.
Proof.
  revert acc st. induction instances as [|instance rest IH]; intros acc st.
  - cbn. intros [= _ -> _]. by left.
  - cbn [for_instances].
    pose proof (raises_within_instance_record instance st) as Hr.
    pose proof (stays_instance_record aws (λ _, True) (λ _, True)
                  (λ _, True) instance (λ _, I) st) as (evs1 & _ & He & _).
    destruct (instance_record aws instance st) as [[r|e1] st1].
    + intros H. destruct (IH _ _ H) as [Hf|Hesc]; [by left |].
      right. exact (escape_extends _ _ _ _ _ He Hesc).
    + intros [= _ <- <-]. right. by apply Hr.
Qed.

Lemma raises_within_get_ec2_list : raises_within aws (get_ec2_list aws).
Proof.
  intros st e st'. unfold get_ec2_list.
  destruct (instances_filter aws filters (world st)) as [l w].
  pose proof (for_instances_raised (yielded l) (failure l) []
                (record (InstancesFilter filters) (failure l) w st)) as Hr.
  pose proof (within_for_instances aws (λ _, True) (λ _, True) (λ _, True)
                (yielded l) (failure l) []
                (record (InstancesFilter filters) (failure l) w st)
                (λ _, I)) as (evs1 & _ & He & _).
  destruct (for_instances aws (yielded l) (failure l) [] _)
    as [[out raised_] st1]. cbn in He. rewrite <- app_assoc in He.
  destruct raised_ as [e1|]; [| done].
  specialize (Hr out e1 st1 eq_refl).
  destruct e1 as [ce| | | |]; [done | | | |];
    (intros [= <- <-]; destruct Hr as [Hf|Hesc];
     [ left; eexists _, (InstancesFilter filters);
       split; [exact He |]; rewrite Hf; apply list_elem_of_here
     | exact (escape_extends _ st
                (record (InstancesFilter filters) (failure l) w st) _
                [(InstancesFilter filters, failure l)] eq_refl Hesc) ]).
Qed.

Lemma raises_within_finish names : raises_within aws (finish aws names).
Proof.
  destruct names as [f b]. intros st e st' H.
  apply finish_cases in H
    as (res & w & _ & _ & _ & [(e1 & _ & [= <-] & Ht & _)|[H|[H|H]]]).
  - left. exists [(UploadFile f b f, Some e)]. eexists.
    split; [done |]. apply list_elem_of_here.
  - by destruct H as (_ & _ & ? & _).
  - by destruct H as (_ & _ & _ & ? & _).
  - destruct H as (cls & _ & _ & _ & [= <-] & Ht & _).
    left. eexists _, (OsRemove f). split; [exact Ht |].
    do 2 apply list_elem_of_further. apply list_elem_of_here.
Qed.

Lemma raises_within_write_local_file file_name
    (records : list instance_info) :
  (∀ r, r ∈ records → is_Some (r !! Name) ∧ is_Some (r !! Ami)) →
  raises_within aws (write_local_file aws file_name records).
Proof.
  intros Hkeys st e st'. unfold write_local_file. unfold mbind, M_bind.
  unfold Run.bind at 1. unfold on_files.
  destruct (os_open aws (files st) file_name (world st)) as [cls|].
  - intros [= <- <-]. left. eexists [(Open file_name, _)], _. cbn.
    split; [done |]. apply list_elem_of_here.
  - intros Hr.
    apply (for_each_write_record_raises aws _ _ Hkeys) in Hr
      as (cls & fs & text & -> & Hos).
    do 4 right. by exists fs, file_name, text, (world st), cls.
Qed.

Lemma raises_within_resolve_account region :
  raises_within aws (resolve_account aws region).
Proof.
  unfold resolve_account, dict_getitem. unfold mbind, M_bind, mret, M_ret.
  repeat first
    [ apply raises_within_invoke
    | apply raises_within_bind_all; [apply extends_invoke | | intros ?] ].
  intros st e st'.
  match goal with |- context [match ?x with _ => _ end] => destruct x end;
    [done |].
  intros [= <- <-]. by right; left.
Qed.

Lemma raises_within_command_body region :
  raises_within aws (command_body aws region).
Proof.
  unfold command_body, report. unfold mbind, M_bind.
  apply raises_within_bind_all.
  { apply (stays_extends (command_call region EmptyString EmptyString)
             (λ _, True) (eq EmptyString)).
    apply stays_resolve_account. }
  { apply raises_within_resolve_account. }
  intros account. apply raises_within_bind_all.
  { apply (stays_extends (λ _, True) (λ _, True) (λ _, True)).
    by apply stays_create_not_exists_bucket. }
  { apply raises_within_create_not_exists_bucket. }
  intros _. apply raises_within_bind_all.
  { apply (stays_extends (λ _, True) (λ _, True) (λ _, True)).
    by apply stays_generate_file_name. }
  { intros st e st'. by rewrite generate_file_name_run. }
  intros csv_f_name. apply raises_within_bind.
  { apply (stays_extends (λ _, True) (λ _, True) (λ _, True)).
    by apply stays_get_ec2_list. }
  { apply raises_within_get_ec2_list. }
  intros st recs st1 e st' Hg.
  pose proof (get_ec2_list_columns aws st recs st1 Hg) as Hkeys.
  apply (raises_within_bind_all (write_local_file aws csv_f_name recs)
           (λ _, Run.bind (invoke (Boto3Client "s3" None)
                             (boto3_client aws "s3" None))
                   (λ _, finish aws
                           (csv_f_name, get_bucket_name account region)))).
  { apply (stays_extends (λ _, True) (λ _, True) (λ _, True)).
    by apply stays_write_local_file. }
  { by apply raises_within_write_local_file. }
  intros _. apply raises_within_bind_all;
    [apply extends_invoke | apply raises_within_invoke |].
  intros _. apply raises_within_finish.
Qed.

End Escapes.

(** X17. The exceptions that can leave the command.  An exception the
    command raises is never a [ClientError], and it is one of: an
    exception recorded as the outcome of a call of this run, among them
    the exceptions of [open], of the upload and of [os.remove]; the
    [KeyError] of an identity response without the key ['Account']; the
    [ValueError] of [int] on a probe error code that is not an integer;
    the [TypeError] of an instance without a tag collection; the
    exception of a row write of the report.  In particular the report
    writer never fails on a missing column. *)
Theorem command_exceptions {W} (aws : Provider W) (region : string)
    (st : state W) (e : exn) (st' : state W) :
  create_running_ec2_list aws region st = (Raise e, st') →
  is_ClientError e = false
  ∧ ((∃ evs c, trace st' = trace st ++ evs ∧ (c, Some e) ∈ evs)
     ∨ e = KeyError "Account"
     ∨ (∃ code, e = ValueError code ∧ Py.int code = None)
     ∨ e = TypeError "'NoneType' object is not iterable"
     ∨ (∃ fs p text w cls,
          os_write aws fs p text w = Some cls ∧ e = OtherError cls)).
Proof.
  rewrite create_running_ec2_list_body. unfold try_except.
  pose proof (raises_within_command_body aws region st) as Hr.
  destruct (command_body aws region st) as [[[]|e1] st1]; [done |].
  destruct e1 as [ce| | | |]; [done | | | |];
    (intros [= <- <-]; split; [done |]; by apply Hr).
Qed.

Lemma command_exceptions_witness :
  create_running_ec2_list (Script.provider symbolic_code) "us-east-1"
    Script.start
  = (Raise (ValueError "AccessDenied"),
     (create_running_ec2_list (Script.provider symbolic_code) "us-east-1"
        Script.start).2)
  ∧ is_ClientError (ValueError "AccessDenied") = false.
Proof.
  assert (create_running_ec2_list (Script.provider symbolic_code)
            "us-east-1" Script.start
          = (Raise (ValueError "AccessDenied"),
             (create_running_ec2_list (Script.provider symbolic_code)
                "us-east-1" Script.start).2)) as Hrun.
  { vm_compute. reflexivity. }
  split; [exact Hrun |].
  exact (proj1 (command_exceptions (Script.provider symbolic_code)
                  "us-east-1" Script.start (ValueError "AccessDenied") _
                  Hrun)).
Defined.

(** A row write that raises ends the run before the upload and leaves
    the report file behind, opened and empty. *)
Example row_write_fails :
  let run := create_running_ec2_list (Script.provider disk_full)
               "us-east-1" Script.start in
  run.1 = Raise (OtherError "OSError")
  ∧ files run.2 !! report_name = Some EmptyString
  ∧ last (trace run.2) = Some (Open report_name, None).
Proof. vm_compute. repeat split. Qed.

(** ** Exceptions of the listing that are not provider errors *)

(** X18. An exception other than a [ClientError], raised by the iteration
    of the collection once the instances [pre] have been yielded or by the
    image lookup of the instance that follows [pre], leaves
    [get_ec2_list]: nothing is logged and the records of [pre], although
    collected, do not reach the caller. *)
Theorem listing_exception_propagates {W} (aws : Provider W)
    (st : state W) (l : listing) (w : W) (pre : list Instance)
    (recs : list instance_info) (st1 st2 : state W) (e : exn) :
  instances_filter aws filters (world st) = (l, w) →
  processed aws pre (listed l w st) recs st1 →
  is_ClientError e = false →
  (yielded l = pre ∧ failure l = Some e ∧ st2 = st1)
  ∨ (∃ bad post ts w2,
       yielded l = pre ++ bad :: post
       ∧ tags bad = Some ts
       ∧ image_load aws (image_id bad) (world st1) = (Raise e, w2)
       ∧ st2 = record (ImageLoad (image_id bad)) (Some e) w2 st1) →
  get_ec2_list aws st = (Raise e, st2)
  ∧ log st2 = log st.
Proof.
  intros Hl Hp He Hcase.
  destruct (processed_frame aws _ _ _ _ Hp) as (_ & Hlog & _).
  destruct Hcase as [(Hy & Hf & ->)|(bad & post & ts & w2 & Hy & Ht & Hi & ->)].
  - split; [| done].
    rewrite (get_ec2_list_run aws st l w pre [] recs st1 Hl);
      [| by rewrite app_nil_r | done].
    cbn [for_instances]. rewrite Hf. by destruct e.
  - split; [| done].
    rewrite (get_ec2_list_run aws st l w pre (bad :: post) recs st1 Hl Hy Hp).
    cbn [for_instances]. rewrite (instance_record_run aws bad ts st1 Ht), Hi.
    by destruct e.
Qed.

Lemma listing_exception_propagates_witness :
  processed (Script.provider images_unreachable) [Script.web_1]
    (listed (Script.instances images_unreachable) tt Script.start)
    [web_1_record] (after_web_1 images_unreachable)
  ∧ is_ClientError unreachable = false
  ∧ get_ec2_list (Script.provider images_unreachable) Script.start
    = (Raise unreachable,
       record (ImageLoad "ami-9") (Some unreachable) tt
         (after_web_1 images_unreachable)).
Proof.
  assert (processed (Script.provider images_unreachable) [Script.web_1]
            (listed (Script.instances images_unreachable) tt Script.start)
            [web_1_record] (after_web_1 images_unreachable)) as Hp.
  { apply (processed_cons _ Script.web_1 [] _ web_1_record
             (after_web_1 images_unreachable) [] _);
      [reflexivity | apply processed_nil]. }
  split; [exact Hp |]. split; [reflexivity |].
  refine (proj1 (listing_exception_propagates
                   (Script.provider images_unreachable) Script.start
                   (Script.instances images_unreachable) tt [Script.web_1]
                   [web_1_record] (after_web_1 images_unreachable) _
                   unreachable eq_refl Hp eq_refl _)).
  right. exists missing_image, [Script.untagged], [mkTag "Name" "batch"], tt.
  repeat split; reflexivity.
Defined.
